(** * dso-to-ct: a shallow embedding of [main.go]

    The program streams certificate chains out of a MySQL store, rebuilds
    each chain (leaf first), and posts it to a Certificate Transparency log
    with a pool of workers that update three shared counters.

    Conventions of the embedding:
    - Go's [int] and [int64] are [Z] values kept in the signed 64-bit range
      by [wrap64];
    - a [[]byte] is an [option (list byte)]: [None] is the nil slice, which
      the program tests for ([leaf == nil]);
    - an [error] result is an [option error] ([None] is Go's nil error);
    - the database, the HTTP client and the JSON decoder of the log's answer
      are collaborators of the program: they are arguments of the functions
      that call them. *)

From Stdlib Require Import ZArith NArith List String Ascii Bool Lia.
From Stdlib Require Import Strings.Byte.
From Stdlib Require Import Floats.PrimFloat Numbers.Cyclic.Int63.Uint63.
From Stdlib Require Import Permutation.
Import ListNotations.

Set Warnings "-register-all".
Local Open Scope Z_scope.

(** ** Go values *)

Module Go.

(** Two's complement reduction of an integer to [int64] (and to [int] on a
    64-bit platform). *)
Definition wrap64 (z : Z) : Z :=
  (z + 2 ^ 63) mod 2 ^ 64 - 2 ^ 63.

Definition min_int64 : Z := - 2 ^ 63.
Definition max_int64 : Z := 2 ^ 63 - 1.

Definition in_int64 (z : Z) : Prop := min_int64 <= z <= max_int64.

(** A byte slice; [None] is the nil slice. *)
Definition byteSlice : Type := option (list byte).

(** The bytes a slice holds; a nil slice holds none. *)
Definition slice_bytes (s : byteSlice) : list byte :=
  match s with
  | None => []
  | Some b => b
  end.

(** [len] of a Go slice, as an [int]. *)
Definition len {A : Type} (l : list A) : Z := Z.of_nat (List.length l).

(** The error values the program meets. *)
Inductive error : Type :=
| ErrNoRows                      (* sql.ErrNoRows *)
| StoreError (msg : string)      (* any other error of database/sql or gorp *)
| ErrorString (msg : string)     (* errors.New and fmt.Errorf *)
| TransportError (msg : string)  (* an error of http.Client.Post *)
| ReadError (msg : string)       (* an error while reading a response body *)
| JsonError (msg : string).      (* an error of json.Unmarshal or json.Marshal *)

(** A call that returns [(value, error)]. *)
Inductive result (A : Type) : Type :=
| Ok (a : A)
| Err (e : error).
Arguments Ok {A} a.
Arguments Err {A} e.

End Go.
Import Go.

(** ** Data model *)

(** [type chain struct]: the identity read from the store and, once
    assembled, the certificates of the chain. *)
Record chain : Type := mkChain {
  Fingerprint : byteSlice;
  ID : Z;
  certs : list byteSlice
}.

(** [type report struct] *)
Record report : Type := mkReport {
  CertFP : string;
  EndEntity : bool
}.

(** The three queries the program sends through [*gorp.DbMap].
    [selectChains limit offset] is
    [db.Select(&chains, selectChains, limit, offset)],
    [selectReports fp] is [db.Select(&reports, selectReports, fp)] and
    [selectRawCert fp] is [db.SelectOne(&raw, selectRawCert, fp)], which
    leaves [raw] nil when the column is NULL. *)
Record DbMap : Type := mkDb {
  selectChains : Z -> Z -> result (list chain);
  selectReports : byteSlice -> result (list report);
  selectRawCert : string -> result byteSlice
}.

Definition maxChains : Z := 1000.

(** ** ChainSource: [getChains] *)

Module ChainSource.

(** What [getChains] does that the rest of the program can see. *)
Inductive event : Type :=
| Query (offset : Z)            (* db.Select(..., maxChains, offset) *)
| Send (batch : list chain).    (* chainCh <- chains *)

(** How a call ends; [OutOfFuel] is not an outcome of the program, it
    says that the loop was still running when the fuel ran out. *)
Inductive outcome : Type :=
| Returned (err : option error)
| OutOfFuel.

(** The [for] loop of [getChains], one iteration per unit of fuel. *)
Fixpoint getChains_loop (fuel : nat) (db : DbMap) (offset : Z)
  : list event * outcome :=
  match fuel with
  | O => ([], OutOfFuel)
  | S fuel' =>
      match selectChains db maxChains offset with
      | Err ErrNoRows => ([Query offset], Returned None)
      | Err err => ([Query offset], Returned (Some err))
      | Ok chains =>
          if len chains <? maxChains
          then ([Query offset; Send chains], Returned None)
          else
            let (evs, out) :=
              getChains_loop fuel' db (wrap64 (offset + len chains)) in
            (Query offset :: Send chains :: evs, out)
      end
  end.

(** [getChains], started at the offset of the [initialChainID] flag. *)
Definition getChains (fuel : nat) (db : DbMap) (initOffset : Z)
  : list event * outcome :=
  getChains_loop fuel db initOffset.

Fixpoint queries (evs : list event) : list Z :=
  match evs with
  | [] => []
  | Query o :: evs' => o :: queries evs'
  | Send _ :: evs' => queries evs'
  end.

Fixpoint batches (evs : list event) : list (list chain) :=
  match evs with
  | [] => []
  | Query _ :: evs' => batches evs'
  | Send b :: evs' => b :: batches evs'
  end.

(** Number of chain identities put on the batch channel. *)
Definition emitted (evs : list event) : nat :=
  List.length (List.concat (batches evs)).

End ChainSource.

(** ** ChainAssembler: [getCerts] *)

Module ChainAssembler.

Definition no_end_entity : error := ErrorString "chain without end-entity".

(** The [range reports] loop: [leaf] and [others] are the loop's two
    variables; a failed [SelectOne] leaves the loop with its error. *)
Fixpoint collect (db : DbMap) (reports : list report)
         (leaf : byteSlice) (others : list byteSlice)
  : result (byteSlice * list byteSlice) :=
  match reports with
  | [] => Ok (leaf, others)
  | r :: reports' =>
      match selectRawCert db (CertFP r) with
      | Err err => Err err
      | Ok raw =>
          if EndEntity r
          then collect db reports' raw others
          else collect db reports' leaf (others ++ [raw])
      end
  end.

(** [getCerts]: on success the chain with its [certs] field set. *)
Definition getCerts (db : DbMap) (partialChain : chain) : result chain :=
  match selectReports db (Fingerprint partialChain) with
  | Err err => Err err
  | Ok reports =>
      match collect db reports None [] with
      | Err err => Err err
      | Ok (None, _) => Err no_end_entity
      | Ok (Some leaf, others) =>
          Ok (mkChain (Fingerprint partialChain) (ID partialChain)
                      (Some leaf :: others))
      end
  end.

End ChainAssembler.

(** ** [encoding/base64]: [StdEncoding.EncodeToString] *)

Module Base64.

Local Open Scope N_scope.

(** The alphabet of [StdEncoding]; its padding character is [=]. *)
Definition encodeStd : string :=
  "ABCDEFGHIJKLMNOPQRSTUVWXYZabcdefghijklmnopqrstuvwxyz0123456789+/".

Definition padChar : ascii := "="%char.

(** [enc.encode[v & 0x3F]] *)
Definition sextet (v : N) : ascii :=
  match String.get (N.to_nat (N.land v 63)) encodeStd with
  | Some c => c
  | None => padChar
  end.

(** [Encoding.Encode]: three source bytes make one 24-bit value and four
    characters; a remainder of one or two bytes is padded. *)
Fixpoint EncodeToString (src : list byte) : string :=
  match src with
  | [] => EmptyString
  | [a] =>
      let val := N.shiftl (Byte.to_N a) 16 in
      String (sextet (N.shiftr val 18))
        (String (sextet (N.shiftr val 12))
           (String padChar (String padChar EmptyString)))
  | [a; b] =>
      let val := N.lor (N.shiftl (Byte.to_N a) 16)
                       (N.shiftl (Byte.to_N b) 8) in
      String (sextet (N.shiftr val 18))
        (String (sextet (N.shiftr val 12))
           (String (sextet (N.shiftr val 6))
              (String padChar EmptyString)))
  | a :: b :: c :: rest =>
      let val := N.lor (N.lor (N.shiftl (Byte.to_N a) 16)
                              (N.shiftl (Byte.to_N b) 8))
                       (Byte.to_N c) in
      String (sextet (N.shiftr val 18))
        (String (sextet (N.shiftr val 12))
           (String (sextet (N.shiftr val 6))
              (String (sextet val)
                 (EncodeToString rest))))
  end.

(** The characters an encoding is made of. *)
Definition is_std_char (c : ascii) : bool :=
  let n := N_of_ascii c in
  ((65 <=? n) && (n <=? 90))          (* A-Z *)
  || ((97 <=? n) && (n <=? 122))      (* a-z *)
  || ((48 <=? n) && (n <=? 57))       (* 0-9 *)
  || (n =? 43) || (n =? 47)           (* + / *)
  || (n =? 61).                       (* = *)

Fixpoint all_chars (p : ascii -> bool) (s : string) : bool :=
  match s with
  | EmptyString => true
  | String c s' => p c && all_chars p s'
  end.

End Base64.

(** ** [encoding/json]: [Marshal] *)

Module Json.

Definition dquote : ascii := "034"%char.
Definition backslash : ascii := "092"%char.

Definition quoted (s : string) : string :=
  String dquote (s ++ String dquote EmptyString).

Definition hex_digit (n : N) : ascii :=
  match String.get (N.to_nat (N.land n 15)) "0123456789abcdef" with
  | Some c => c
  | None => "0"%char
  end.

(** [htmlSafeSet]: the ASCII characters the encoder copies unchanged. *)
Definition htmlSafe (c : ascii) : bool :=
  let n := N_of_ascii c in
  ((32 <=? n) && (n <? 128))%N
  && negb ((n =? 34) || (n =? 92) || (n =? 60) || (n =? 62) || (n =? 38))%N.

(** What the encoder writes for an ASCII character. *)
Definition escape_ascii (c : ascii) : string :=
  let n := N_of_ascii c in
  if htmlSafe c then String c EmptyString
  else if ((n =? 34) || (n =? 92))%N then String backslash (String c EmptyString)
  else if (n =? 8)%N then String backslash "b"
  else if (n =? 12)%N then String backslash "f"
  else if (n =? 10)%N then String backslash "n"
  else if (n =? 13)%N then String backslash "r"
  else if (n =? 9)%N then String backslash "t"
  else String backslash
         ("u00" ++ String (hex_digit (N.shiftr n 4))
                     (String (hex_digit n) EmptyString)).

(** [utf8.DecodeRuneInString] at a byte [b0 >= 0x80] followed by [rest]:
    the number of continuation bytes of a well-formed sequence, [None] when
    the sequence is not well formed (RuneError of width 1). *)
Definition continuation (c : ascii) : bool :=
  let n := N_of_ascii c in ((128 <=? n) && (n <=? 191))%N.

Definition in_range (lo hi : N) (c : ascii) : bool :=
  let n := N_of_ascii c in ((lo <=? n) && (n <=? hi))%N.

Definition utf8_tail (b0 : N) (rest : string) : option nat :=
  let second (lo hi : N) (more : nat) :=
    match rest with
    | String c1 rest1 =>
        if in_range lo hi c1 then
          match more, rest1 with
          | O, _ => Some 1%nat
          | S O, String c2 _ =>
              if continuation c2 then Some 2%nat else None
          | S (S O), String c2 (String c3 _) =>
              if continuation c2 && continuation c3 then Some 3%nat else None
          | _, _ => None
          end
        else None
    | EmptyString => None
    end in
  if ((194 <=? b0) && (b0 <=? 223))%N then second 128%N 191%N 0%nat
  else if (b0 =? 224)%N then second 160%N 191%N 1%nat
  else if (b0 =? 237)%N then second 128%N 159%N 1%nat
  else if ((225 <=? b0) && (b0 <=? 239))%N then second 128%N 191%N 1%nat
  else if (b0 =? 240)%N then second 144%N 191%N 2%nat
  else if ((241 <=? b0) && (b0 <=? 243))%N then second 128%N 191%N 2%nat
  else if (b0 =? 244)%N then second 128%N 143%N 2%nat
  else None.

(** U+2028 and U+2029 (E2 80 A8, E2 80 A9) are written as escapes. *)
Definition line_separator (b0 : N) (rest : string) : option ascii :=
  match rest with
  | String c1 (String c2 _) =>
      let n2 := N_of_ascii c2 in
      if ((b0 =? 226) && (N_of_ascii c1 =? 128)
          && ((n2 =? 168) || (n2 =? 169)))%N
      then Some (hex_digit n2) else None
  | _ => None
  end.

(** The body of [appendString] with [escapeHTML] set. [skip] counts the
    continuation bytes of the rune in progress, copied when [copy]. *)
Fixpoint appendString_from (s : string) (skip : nat) (copy : bool) : string :=
  match s with
  | EmptyString => EmptyString
  | String c rest =>
      match skip with
      | S skip' =>
          if copy then String c (appendString_from rest skip' copy)
          else appendString_from rest skip' copy
      | O =>
          let b := N_of_ascii c in
          if (b <? 128)%N then escape_ascii c ++ appendString_from rest 0 true
          else
            match utf8_tail b rest with
            | None =>
                String backslash "ufffd" ++ appendString_from rest 0 true
            | Some n =>
                match line_separator b rest with
                | Some d =>
                    String backslash ("u202" ++ String d EmptyString)
                      ++ appendString_from rest n false
                | None => String c (appendString_from rest n true)
                end
            end
      end
  end.

Definition appendString (s : string) : string :=
  quoted (appendString_from s 0 true).

(** The Go values [Marshal] is applied to, as far as their kinds go. *)
Inductive value : Type :=
| VString (s : string)
| VNil                                    (* a nil slice, map or pointer *)
| VSlice (elems : list value)
| VStruct (fields : list (string * value)) (* JSON key and field value *)
| VChan
| VFunc.

Definition unsupported_type : error := JsonError "json: unsupported type".

Fixpoint join (sep : string) (l : list string) : string :=
  match l with
  | [] => EmptyString
  | [x] => x
  | x :: l' => x ++ sep ++ join sep l'
  end.

(** [Marshal]: an error only for a value of an unsupported kind. *)
Fixpoint Marshal (v : value) : result string :=
  match v with
  | VString s => Ok (appendString s)
  | VNil => Ok "null"%string
  | VSlice elems =>
      let fix each (l : list value) : result (list string) :=
        match l with
        | [] => Ok []
        | x :: l' =>
            match Marshal x with
            | Err e => Err e
            | Ok j =>
                match each l' with
                | Err e => Err e
                | Ok js => Ok (j :: js)
                end
            end
        end in
      match each elems with
      | Err e => Err e
      | Ok js => Ok ("[" ++ join "," js ++ "]")%string
      end
  | VStruct fields =>
      let fix each (l : list (string * value)) : result (list string) :=
        match l with
        | [] => Ok []
        | (k, x) :: l' =>
            match Marshal x with
            | Err e => Err e
            | Ok j =>
                match each l' with
                | Err e => Err e
                | Ok js => Ok ((appendString k ++ ":" ++ j)%string :: js)
                end
            end
        end in
      match each fields with
      | Err e => Err e
      | Ok js => Ok ("{" ++ join "," js ++ "}")%string
      end
  | VChan | VFunc => Err unsupported_type
  end.

End Json.

(** ** [certsToSub] *)

(** [type ctSubmission struct]; [Chain] is nil until the first [append]. *)
Record ctSubmission : Type := mkSub {
  Chain : option (list string)
}.

(** [append(s, x)] on a slice that may be nil. *)
Definition append {A : Type} (s : option (list A)) (x : A) : option (list A) :=
  match s with
  | None => Some [x]
  | Some l => Some (l ++ [x])
  end.

(** The value [json.Marshal] sees for a [ctSubmission]: one field, tagged
    [json:"chain"], of type [[]string]. *)
Definition ctSubmission_value (sub : ctSubmission) : Json.value :=
  Json.VStruct
    [("chain"%string,
      match Chain sub with
      | None => Json.VNil
      | Some l => Json.VSlice (map Json.VString l)
      end)].

(** What a panic carries: the error handed to [panic], or the run-time
    error of a method call through a nil interface value. *)
Inductive panic_value : Type :=
| PanicError (err : error)
| NilDereference.

(** A call that either returns or panics. *)
Inductive call (A : Type) : Type :=
| Returns (a : A)
| Panics (reason : panic_value).
Arguments Returns {A} a.
Arguments Panics {A} reason.

(** The [range certs] loop of [certsToSub]. *)
Definition certsToSub_loop (certs : list byteSlice) (sub : ctSubmission)
  : ctSubmission :=
  fold_left
    (fun sub c =>
       mkSub (append (Chain sub) (Base64.EncodeToString (slice_bytes c))))
    certs sub.

Definition certsToSub (certs : list byteSlice) : call string :=
  let sub := certsToSub_loop certs (mkSub None) in
  match Json.Marshal (ctSubmission_value sub) with
  | Err err => Panics (PanicError err)
  | Ok j => Returns j
  end.

(** ** SubmissionSink: [httpClient], [dryClient] and [submit] *)

Module Http.

Definition StatusOK : Z := 200.

(** A response body as [ioutil.ReadAll] sees it: the bytes read and the
    error, if any, that ended the read. *)
Record ReadCloser : Type := mkBody {
  content : list byte;
  read_error : option error
}.

(** [http.Response]; [Body] is an interface value, [None] when nil. *)
Record Response : Type := mkResponse {
  StatusCode : Z;
  Body : option ReadCloser
}.

Definition ReadAll (r : ReadCloser) : list byte * option error :=
  (content r, read_error r).

(** The two implementations of [httpClient]: [dryClient], and
    [*http.Client], whose [Post] is the network's answer to the request
    (URL, content type, body). *)
Inductive httpClient : Type :=
| dryClient
| liveClient (roundTrip : string -> string -> string -> result Response).

(** [Post]; [dryClient] sleeps and answers 200 with no body set. *)
Definition Post (c : httpClient) (url contentType body : string)
  : result Response :=
  match c with
  | dryClient => Ok (mkResponse StatusOK None)
  | liveClient roundTrip => roundTrip url contentType body
  end.

End Http.
Import Http.

Definition logAddr : string :=
  "https://ct.googleapis.com/rocketeer/ct/v1/add-chain".

(** ** ProgressState: the three shared counters *)

Record ProgressState : Type := mkProgress {
  lastSubmittedChain : Z;
  numSubmitted : Z;
  numNewSubmitted : Z
}.

(** The atomic operations the workers apply to the counters. *)
Inductive atomic_op : Type :=
| AddNumNewSubmitted              (* atomic.AddInt64(&numNewSubmitted, 1) *)
| StoreLastSubmittedChain (id : Z) (* atomic.StoreInt64(&lastSubmittedChain, id) *)
| AddNumSubmitted.                (* atomic.AddInt64(&numSubmitted, 1) *)

Definition exec_op (st : ProgressState) (op : atomic_op) : ProgressState :=
  match op with
  | AddNumNewSubmitted =>
      mkProgress (lastSubmittedChain st) (numSubmitted st)
                 (wrap64 (numNewSubmitted st + 1))
  | StoreLastSubmittedChain id =>
      mkProgress id (numSubmitted st) (numNewSubmitted st)
  | AddNumSubmitted =>
      mkProgress (lastSubmittedChain st) (wrap64 (numSubmitted st + 1))
                 (numNewSubmitted st)
  end.

Definition exec_ops (ops : list atomic_op) (st : ProgressState)
  : ProgressState :=
  fold_left exec_op ops st.

Module Submission.

Definition hour_ns : Z := 3600 * 1000000000.

(** [int64(time.Now().UTC().Add(-time.Hour).UnixNano()/1000)], where
    [now] is [time.Now().UnixNano()]; Go's [/] truncates. *)
Definition cutoff (now : Z) : Z :=
  Z.quot (wrap64 (now - hour_ns)) 1000.

Section WithDecoder.

(** [json.Unmarshal(b, &ctr)] followed by reading [ctr.Timestamp]. *)
Variable Unmarshal : list byte -> result Z.

(** [submit], with the clock value it reads; the result is the atomic
    operations it performs, in order, and how the call ends. *)
Definition submit (c : httpClient) (submission : chain) (now : Z)
  : list atomic_op * call (option error) :=
  match certsToSub (certs submission) with
  | Panics reason => ([], Panics reason)
  | Returns body =>
      match Post c logAddr "encoding/json" body with
      | Err err => ([], Returns (Some err))
      | Ok resp =>
          match Body resp with
          | None =>
              (* defer resp.Body.Close() through a nil interface *)
              ([], Panics NilDereference)
          | Some rc =>
              if negb (StatusCode resp =? StatusOK) then
                let (b, _) := ReadAll rc in
                ([], Returns (Some (ErrorString
                       ("non-200 status code, body: "
                          ++ string_of_list_byte b))))
              else
                match ReadAll rc with
                | (_, Some err) => ([], Returns (Some err))
                | (b, None) =>
                    match Unmarshal b with
                    | Err err => ([], Returns (Some err))
                    | Ok timestamp =>
                        ((if timestamp >? cutoff now
                          then [AddNumNewSubmitted] else [])
                           ++ [StoreLastSubmittedChain (ID submission);
                               AddNumSubmitted],
                         Returns None)
                    end
                end
          end
      end
  end.

(** One iteration of a worker's [range submissions] loop. *)
Definition worker_iteration (c : httpClient) (submission : chain) (now : Z)
  : list atomic_op * call (option error) :=
  match submit c submission now with
  | (ops, Panics reason) => (ops, Panics reason)
  | (ops, Returns (Some err)) => (ops, Returns (Some err))
  | (ops, Returns None) =>
      (ops ++ [StoreLastSubmittedChain (ID submission)], Returns None)
  end.

End WithDecoder.

End Submission.

(** ** WorkerPool: [submitChains] *)

Module WorkerPool.

(** [make(chan chain, 100000)] *)
Definition capacity : Z := 100000.

(** Where a worker stands in its iteration: its request is with the log,
    or [submit] has reached its atomic operations and [ops] are still to
    be performed before the iteration ends with [err]. *)
Inductive phase : Type :=
| Posting
| Updating (ops : list atomic_op) (err : option error).

Definition job : Type := (nat * (chain * phase))%type.

(** The pool between two steps: the assembled chains [main] has still to
    send, the chains buffered on [submissions], the job of each busy
    worker, the counters, and a history of the iterations that ended (the
    chain and the error of its [submit]). *)
Record pool : Type := mkPool {
  unsent : list chain;
  queue : list chain;
  busy : list job;
  progress : ProgressState;
  history : list (chain * option error)
}.

(** [main] sends a chain; a worker receives one; the log answers a
    worker, which reads the clock at [now]; a worker performs its next
    atomic operation. Operations of different workers interleave. *)
Inductive event : Type :=
| Push
| Receive (w : nat)
| Respond (w : nat) (now : Z)
| Atomic (w : nat).

(** A panic in a worker goroutine ends the process. *)
Inductive status : Type :=
| Running (p : pool)
| Crashed (reason : panic_value) (p : pool).

Definition is_busy (w : nat) (b : list job) : bool :=
  existsb (fun j => Nat.eqb w (fst j)) b.

Fixpoint take_job (w : nat) (b : list job)
  : option (chain * phase * list job) :=
  match b with
  | [] => None
  | (w', j) :: b' =>
      if Nat.eqb w w' then Some (j, b')
      else
        match take_job w b' with
        | None => None
        | Some (j', b'') => Some (j', (w', j) :: b'')
        end
  end.

Section WithConfiguration.

Variable Unmarshal : list byte -> result Z.
Variable c : httpClient.      (* chosen by the dryRun flag *)
Variable workers : nat.       (* the workers flag *)

(** One step of the pool; [None] when the event cannot happen (a send on
    a full channel and a receive on an empty one block). *)
Definition step (ev : event) (p : pool) : option status :=
  match ev with
  | Push =>
      match unsent p with
      | [] => None
      | x :: rest =>
          if len (queue p) <? capacity
          then Some (Running (mkPool rest (queue p ++ [x]) (busy p)
                                     (progress p) (history p)))
          else None
      end
  | Receive w =>
      if Nat.ltb w workers && negb (is_busy w (busy p)) then
        match queue p with
        | [] => None
        | x :: q =>
            Some (Running (mkPool (unsent p) q ((w, (x, Posting)) :: busy p)
                                  (progress p) (history p)))
        end
      else None
  | Respond w now =>
      match take_job w (busy p) with
      | Some ((x, Posting), b) =>
          match Submission.worker_iteration Unmarshal c x now with
          | (ops, Panics reason) =>
              Some (Crashed reason
                      (mkPool (unsent p) (queue p) (busy p)
                              (exec_ops ops (progress p)) (history p)))
          | ([], Returns err) =>
              Some (Running (mkPool (unsent p) (queue p) b (progress p)
                                    (history p ++ [(x, err)])))
          | (ops, Returns err) =>
              Some (Running (mkPool (unsent p) (queue p)
                                    ((w, (x, Updating ops err)) :: b)
                                    (progress p) (history p)))
          end
      | _ => None
      end
  | Atomic w =>
      match take_job w (busy p) with
      | Some ((x, Updating (op :: rest) err), b) =>
          match rest with
          | [] =>
              Some (Running (mkPool (unsent p) (queue p) b
                                    (exec_op (progress p) op)
                                    (history p ++ [(x, err)])))
          | _ =>
              Some (Running (mkPool (unsent p) (queue p)
                                    ((w, (x, Updating rest err)) :: b)
                                    (exec_op (progress p) op) (history p)))
          end
      | _ => None
      end
  end.

(** A schedule of events, run from [p]. *)
Fixpoint run (evs : list event) (p : pool) : option status :=
  match evs with
  | [] => Some (Running p)
  | ev :: evs' =>
      match step ev p with
      | None => None
      | Some (Crashed reason p') => Some (Crashed reason p')
      | Some (Running p') => run evs' p'
      end
  end.

End WithConfiguration.

(** The pool when [submitChains] starts, for the chains [main] will
    send. *)
Definition start (q : list chain) (st : ProgressState) : pool :=
  mkPool q [] [] st [].

(** Everything sent, the queue closed and drained, every worker back from
    its iteration. *)
Definition drained (p : pool) : bool :=
  match unsent p, queue p, busy p with
  | [], [], [] => true
  | _, _, _ => false
  end.

(** The identifier of the last chain of a history submitted without
    error, [d] when there is none. *)
Fixpoint last_success (h : list (chain * option error)) (d : Z) : Z :=
  match h with
  | [] => d
  | (x, None) :: h' => last_success h' (ID x)
  | (_, Some _) :: h' => last_success h' d
  end.

(** The chains of a history submitted without error. *)
Fixpoint successes (h : list (chain * option error)) : list chain :=
  match h with
  | [] => []
  | (x, None) :: h' => x :: successes h'
  | (_, Some _) :: h' => successes h'
  end.

(** The largest identifier among [l], [d] for the empty list. *)
Definition max_ID (l : list chain) (d : Z) : Z :=
  fold_left (fun m x => Z.max m (ID x)) l d.

(** *** What the proofs say about a pool *)

(** The ways a worker iteration goes: a panic or an error before any
    counter is touched, or the updates of a success, which end with the
    store of the chain's identifier. *)
Inductive iteration_shape (id : Z)
  : list atomic_op * call (option error) -> Prop :=
| shape_panic (r : panic_value) : iteration_shape id ([], Panics r)
| shape_error (e : error) : iteration_shape id ([], Returns (Some e))
| shape_success (new : bool) :
    iteration_shape id
      ((if new then [AddNumNewSubmitted] else [])
         ++ [StoreLastSubmittedChain id; AddNumSubmitted;
             StoreLastSubmittedChain id],
       Returns None).

(** The operations a worker has still to perform store no identifier but
    the one of its chain, and end with such a store. *)
Definition own_store (id : Z) (op : atomic_op) : Prop :=
  match op with
  | StoreLastSubmittedChain i => i = id
  | _ => True
  end.

Definition well_formed (j : job) : Prop :=
  match j with
  | (_, (_, Posting)) => True
  | (_, (x, Updating ops err)) =>
      err = None
      /\ Forall (own_store (ID x)) ops
      /\ exists ops', ops = ops' ++ [StoreLastSubmittedChain (ID x)]
  end.

(** Job [j] is in its updates and [l] is the identifier of its chain. *)
Definition updating_with (l : Z) (j : job) : Prop :=
  match j with
  | (_, (_, Posting)) => False
  | (_, (x, Updating _ _)) => l = ID x
  end.

(** [lastSubmittedChain] holds the identifier of the last chain of the
    history submitted without error ([d] when there is none), or the one
    of a chain whose worker is in its updates. *)
Definition latest (d : Z) (p : pool) : Prop :=
  Forall well_formed (busy p)
  /\ (lastSubmittedChain (progress p) = last_success (history p) d
      \/ Exists (updating_with (lastSubmittedChain (progress p))) (busy p)).

(** No worker has got an answer yet. *)
Definition all_posting (p : pool) : Prop :=
  Forall (fun j : job => snd (snd j) = Posting) (busy p).

End WorkerPool.

(** ** StatsReporter: [printStats] *)

Module StatsReporter.

(** The conversion [float64(x)] of an [int64]. *)
Definition float64_of_int64 (z : Z) : float :=
  if z =? min_int64 then (-0x1p63)%float
  else if z <? 0 then PrimFloat.opp (PrimFloat.of_uint63 (Uint63.of_Z (- z)))
  else PrimFloat.of_uint63 (Uint63.of_Z z).

(** What one line of statistics shows. *)
Record snapshot : Type := mkSnapshot {
  pending_chains : Z;
  pending_submissions : Z;
  completed : Z;
  completed_new : Z;
  rate : float;
  last_id : Z
}.

(** What a tick observes: [len(chains)], [len(submissions)] and the
    counters. *)
Record observation : Type := mkObservation {
  chains_len : Z;
  submissions_len : Z;
  counters : ProgressState
}.

(** The body of the [for range t.C] loop: the line printed and the new
    value of [lastNumSubmitted]. *)
Definition tick (lastNumSubmitted : Z) (o : observation) : snapshot * Z :=
  let num := numSubmitted (counters o) in
  let rate :=
    PrimFloat.div (float64_of_int64 (wrap64 (num - lastNumSubmitted)))
                  30%float in
  (mkSnapshot (wrap64 (chains_len o * maxChains)) (submissions_len o) num
              (numNewSubmitted (counters o)) rate
              (lastSubmittedChain (counters o)),
   num).

Fixpoint printStats_loop (lastNumSubmitted : Z) (ticks : list observation)
  : list snapshot :=
  match ticks with
  | [] => []
  | o :: ticks' =>
      let (line, num) := tick lastNumSubmitted o in
      line :: printStats_loop num ticks'
  end.

(** [printStats] over the ticks of the ticker. *)
Definition printStats (ticks : list observation) : list snapshot :=
  printStats_loop 0 ticks.

(** The default of the [statsInterval] flag, a [time.Duration] in
    nanoseconds. *)
Definition default_statPeriod : Z := 15 * 1000000000.

(** [Duration.Seconds]. *)
Definition Seconds (d : Z) : float :=
  PrimFloat.add (float64_of_int64 (Z.quot d 1000000000))
                (PrimFloat.div (float64_of_int64 (Z.rem d 1000000000))
                               1e9%float).

(** The rate as the specification words it: the difference of
    [submittedCount] since the previous tick over the seconds between two
    ticks, the configured interval. *)
Definition spec_rate (delta statPeriod : Z) : float :=
  PrimFloat.div (float64_of_int64 delta) (Seconds statPeriod).

End StatsReporter.

(** ** Orchestrator: [main] *)

Module Orchestrator.

(** The [range chains] loop over one batch: a chain whose [getCerts]
    fails is skipped, the others are sent on [submissions]. *)
Fixpoint assemble_batch (db : DbMap) (chains : list chain) : list chain :=
  match chains with
  | [] => []
  | partialChain :: rest =>
      match ChainAssembler.getCerts db partialChain with
      | Err _ => assemble_batch db rest       (* continue *)
      | Ok assembled => assembled :: assemble_batch db rest
      end
  end.

(** The [range chainsCh] loop: the chains sent on [submissions], in
    order. *)
Definition assemble (db : DbMap) (batches : list (list chain)) : list chain :=
  flat_map (assemble_batch db) batches.

(** What the process leaves behind: the lines of the deferred function
    that reached standard output, and the exit status. *)
Inductive line : Type :=
| LastSubmittedLine (id : Z)       (* "# [Last submitted chain ID: %d]" *)
| ErrorLine (r : panic_value).     (* "ERROR" and the recovered value *)

Record termination : Type := mkTermination {
  stdout : list line;
  exit_status : Z
}.

(** The function deferred by [main]; [recovered] is what [recover()]
    returned. It runs when [main] returns, or when the main goroutine
    itself panics. *)
Definition deferred (recovered : option panic_value) (st : ProgressState)
  : termination :=
  match recovered with
  | None => mkTermination [LastSubmittedLine (lastSubmittedChain st)] 0
  | Some r =>
      mkTermination [LastSubmittedLine (lastSubmittedChain st); ErrorLine r] 1
  end.

(** A panic that no deferred function of its own goroutine recovers ends
    the process with status 2; the deferred functions of other goroutines
    do not run. *)
Definition crash : termination := mkTermination [] 2.

Definition initial_progress : ProgressState := mkProgress 0 0 0.

Section WithCollaborators.

Variable Unmarshal : list byte -> result Z.
Variable roundTrip : string -> string -> string -> result Response.

(** [main], for a schedule of the worker pool. [None] when the fuel
    does not let [getChains] finish or when the schedule is not a
    complete run of the pool. *)
Definition main (fuel : nat) (opened : result DbMap) (dryRun : bool)
           (initOffset : Z) (workers : nat)
           (schedule : list WorkerPool.event) : option termination :=
  match opened with
  | Err _ => Some crash      (* panic(err), before the defer statement *)
  | Ok db =>
      match ChainSource.getChains fuel db initOffset with
      | (_, ChainSource.OutOfFuel) => None
      | (_, ChainSource.Returned (Some _)) =>
          Some crash         (* panic(err) in the getChains goroutine *)
      | (evs, ChainSource.Returned None) =>
          let c := if dryRun then dryClient else liveClient roundTrip in
          let q := assemble db (ChainSource.batches evs) in
          match WorkerPool.run Unmarshal c workers schedule
                  (WorkerPool.start q initial_progress) with
          | None => None
          | Some (WorkerPool.Crashed _ _) =>
              Some crash     (* a panic in a worker goroutine *)
          | Some (WorkerPool.Running p) =>
              if WorkerPool.drained p
              then Some (deferred None (WorkerPool.progress p))
              else None
          end
      end
  end.

End WithCollaborators.

End Orchestrator.

(** ** Vocabulary of the specification *)

Module Spec.

(** CertRecord of the data model: a certificate of a chain as the store
    holds it. *)
Record CertRecord : Type := mkRecord {
  fingerprint : string;
  rawBytes : list byte;
  isEndEntity : bool
}.

Definition report_of (r : CertRecord) : report :=
  mkReport (fingerprint r) (isEndEntity r).

(** [records] is the record set fetched for chain [c]: the reports query
    lists them, in this order, and the lookup of each certificate yields
    its raw bytes. *)
Definition fetched (db : DbMap) (c : chain) (records : list CertRecord)
  : Prop :=
  selectReports db (Fingerprint c) = Ok (map report_of records)
  /\ Forall (fun r => selectRawCert db (fingerprint r) = Ok (Some (rawBytes r)))
            records.

Definition raw_of (r : CertRecord) : byteSlice := Some (rawBytes r).

Definition is_intermediate (r : CertRecord) : bool := negb (isEndEntity r).

(** The leaf variable after the loop over fetched records: the raw bytes
    of the last end-entity record, the initial value when there is none. *)
Fixpoint last_leaf (records : list CertRecord) (leaf : byteSlice) : byteSlice :=
  match records with
  | [] => leaf
  | r :: records' =>
      last_leaf records' (if isEndEntity r then raw_of r else leaf)
  end.

(** StoreError of the error taxonomy: an error of a query. *)
Definition is_store_error (e : error) : bool :=
  match e with
  | ErrNoRows | StoreError _ => true
  | _ => false
  end.

(** The elements of a slice that may be nil. *)
Definition slice_elems {A : Type} (s : option (list A)) : list A :=
  match s with
  | None => []
  | Some l => l
  end.

(** The string [certsToSub] makes of one certificate. *)
Definition encode_cert (c : byteSlice) : string :=
  Base64.EncodeToString (slice_bytes c).

(** The body of a submission: one JSON object whose field [chain] lists
    the given strings; Go writes [null] for the nil slice. *)
Definition submission_body (strs : list string) : string :=
  ("{" ++ Json.quoted "chain" ++ ":"
     ++ match strs with
        | [] => "null"
        | _ => "[" ++ Json.join "," (map Json.quoted strs) ++ "]"
        end
     ++ "}")%string.

(** A log timestamp, in milliseconds since the epoch as RFC 6962 defines
    it, is later than the current time (in nanoseconds since the epoch)
    minus one hour, both taken in nanoseconds. *)
Definition within_last_hour (timestamp_ms now_ns : Z) : bool :=
  now_ns - Submission.hour_ns <? timestamp_ms * 1000000.

End Spec.

(** ** Stores, clients and schedules used as examples *)

Module Fixtures.

Definition byte_of (n : nat) : byte :=
  match Byte.of_N (N.of_nat n mod 256) with
  | Some b => b
  | None => x00
  end.

(** The identity of the chain numbered [i]. *)
Definition identity (i : nat) : chain :=
  mkChain (Some [byte_of (i / 256); byte_of i]) (Z.of_nat i) [].

(** [LIMIT limit OFFSET offset] over a table. *)
Definition page (table : list chain) (limit offset : Z) : list chain :=
  firstn (Z.to_nat limit) (skipn (Z.to_nat offset) table).

(** A store of 1400 valid chains and no reports. *)
Definition table1400 : list chain := map identity (seq 1 1400).

Definition db1400 : DbMap :=
  mkDb (fun limit offset => Ok (page table1400 limit offset))
       (fun _ => Ok [])
       (fun _ => Err ErrNoRows).

(** A store that cannot be reached. *)
Definition db_down : DbMap :=
  mkDb (fun _ _ => Err (StoreError "connection refused"))
       (fun _ => Err (StoreError "connection refused"))
       (fun _ => Err (StoreError "connection refused")).

(** A store of three chains: the reports of the first cannot be read,
    the second has a leaf and an intermediate, the third has no leaf. *)
Definition chainA : chain := mkChain (Some [x0a]) 1 [].
Definition chainB : chain := mkChain (Some [x0b]) 2 [].
Definition chainC : chain := mkChain (Some [x0c]) 3 [].

Definition certX : list byte := [x30; x82; x01].
Definition certY : list byte := [x30; x82; x02; x0a].

Definition recordsB : list Spec.CertRecord :=
  [Spec.mkRecord "leafB" certX true; Spec.mkRecord "caB" certY false].

Definition recordsC : list Spec.CertRecord :=
  [Spec.mkRecord "caB" certY false].

Definition db3 : DbMap :=
  mkDb (fun limit offset => Ok (page [chainA; chainB; chainC] limit offset))
       (fun fp =>
          match fp with
          | Some [x0a] => Err (StoreError "invalid connection")
          | Some [x0b] => Ok (map Spec.report_of recordsB)
          | Some [x0c] => Ok (map Spec.report_of recordsC)
          | _ => Ok []
          end)
       (fun fp =>
          if String.eqb fp "leafB" then Ok (Some certX)
          else if String.eqb fp "caB" then Ok (Some certY)
          else Err ErrNoRows).

Definition assembledB : chain :=
  mkChain (Some [x0b]) 2 [Some certX; Some certY].

(** A decoder for answers of the shape [{"timestamp":N}]. *)
Definition timestamp_prefix : list byte :=
  list_byte_of_string ("{" ++ Json.quoted "timestamp" ++ ":").

Fixpoint strip (prefix l : list byte) : option (list byte) :=
  match prefix, l with
  | [], _ => Some l
  | p :: prefix', b :: l' =>
      if Byte.eqb p b then strip prefix' l' else None
  | _ :: _, [] => None
  end.

Fixpoint digits (l : list byte) (acc : Z) : result Z :=
  match l with
  | [] => Err (JsonError "unexpected end of JSON input")
  | b :: l' =>
      let n := Z.of_N (Byte.to_N b) in
      if (48 <=? n) && (n <=? 57) then digits l' (10 * acc + (n - 48))
      else if (n =? 125) && (List.length l' =? 0)%nat then Ok acc
      else Err (JsonError "invalid character")
  end.

Definition Unmarshal (b : list byte) : result Z :=
  match strip timestamp_prefix b with
  | Some (d :: rest) => digits (d :: rest) 0
  | _ => Err (JsonError "unexpected end of JSON input")
  end.

(** 2015-10-31 00:00:00 UTC, in nanoseconds, and a timestamp one minute
    earlier, in milliseconds. *)
Definition now : Z := 1446249600 * 1000000000.
Definition timestamp_ms : Z := 1446249540000.

Definition sct_body : list byte :=
  list_byte_of_string
    ("{" ++ Json.quoted "timestamp" ++ ":1446249540000}").

(** A log that accepts every chain. *)
Definition accepting_log (url contentType body : string) : result Response :=
  Ok (mkResponse StatusOK (Some (mkBody sct_body None))).

(** Two assembled chains, queued in the order of their identifiers. *)
Definition chain3 : chain := mkChain (Some [x03]) 3 [Some certX].
Definition chain5 : chain := mkChain (Some [x05]) 5 [Some certX; Some certY].

(** Two workers; the one that received the later chain gets its answer
    first, and the updates of the two interleave. *)
Definition out_of_order : list WorkerPool.event :=
  [WorkerPool.Push; WorkerPool.Push;
   WorkerPool.Receive 0; WorkerPool.Receive 1;
   WorkerPool.Respond 1 now; WorkerPool.Atomic 1;
   WorkerPool.Respond 0 now; WorkerPool.Atomic 0;
   WorkerPool.Atomic 1; WorkerPool.Atomic 1;
   WorkerPool.Atomic 0; WorkerPool.Atomic 0].

(** One worker, one chain. *)
Definition one_worker : list WorkerPool.event :=
  [WorkerPool.Push; WorkerPool.Receive 0; WorkerPool.Respond 0 now;
   WorkerPool.Atomic 0; WorkerPool.Atomic 0; WorkerPool.Atomic 0].

(** One worker, one chain, up to the answer of the client. *)
Definition first_answer : list WorkerPool.event :=
  [WorkerPool.Push; WorkerPool.Receive 0; WorkerPool.Respond 0 now].

End Fixtures.

(** ** The earlier draft of the submitter *)

(** The second version of the program in the source file: [submit] takes
    the encoded submission and only looks at the status of the answer;
    [submitChains] is one sequential loop that gives up at the first
    error. *)
Module Draft.

Definition submit (c : httpClient) (submission : string)
  : call (option error) :=
  match Post c logAddr "encoding/json" submission with
  | Err err => Returns (Some err)
  | Ok resp =>
      if negb (StatusCode resp =? StatusOK) then
        match Body resp with
        | None => Panics NilDereference   (* ioutil.ReadAll(resp.Body) *)
        | Some rc =>
            let (b, _) := ReadAll rc in
            Returns (Some (ErrorString
                             ("non-200 status code, body: "
                                ++ string_of_list_byte b)))
        end
      else Returns None
  end.

(** The [range submissions] loop over the submissions sent before the
    channel is closed: the submissions posted, in order, and how the call
    ends. *)
Fixpoint submitChains_loop (c : httpClient) (submissions : list string)
  : list string * call (option error) :=
  match submissions with
  | [] => ([], Returns None)
  | s :: rest =>
      match submit c s with
      | Panics reason => ([s], Panics reason)
      | Returns (Some err) => ([s], Returns (Some err))
      | Returns None =>
          let (posted, out) := submitChains_loop c rest in
          (s :: posted, out)
      end
  end.

(** [submitChains]: the client is [new(http.Client)]. *)
Definition submitChains
           (roundTrip : string -> string -> string -> result Response)
           (submissions : list string)
  : list string * call (option error) :=
  submitChains_loop (liveClient roundTrip) submissions.

End Draft.

(** ** Measures of a run *)

Module Measures.

(** What [getChains] returns for an error of the query. *)
Definition error_result (e : error) : option error :=
  match e with
  | ErrNoRows => None
  | _ => Some e
  end.

(** [getCerts] succeeds on the chain. *)
Definition assembles (db : DbMap) (c : chain) : bool :=
  match ChainAssembler.getCerts db c with
  | Ok _ => true
  | Err _ => false
  end.

Definition identity_of (c : chain) : byteSlice * Z := (Fingerprint c, ID c).

(** The chain a job is about. *)
Definition item (j : WorkerPool.job) : chain := fst (snd j).

(** The chains of a pool, from the oldest to the newest: those whose
    iteration ended, those held by workers, those queued, those still to
    send. *)
Definition chains_of (p : WorkerPool.pool) : list chain :=
  map fst (WorkerPool.history p) ++ map item (WorkerPool.busy p)
      ++ WorkerPool.queue p ++ WorkerPool.unsent p.

Definition is_add (op : atomic_op) : bool :=
  match op with
  | AddNumSubmitted => true
  | _ => false
  end.

(** The increments of [numSubmitted] the busy workers have still to
    perform. *)
Fixpoint pending_adds (b : list WorkerPool.job) : Z :=
  match b with
  | [] => 0
  | (_, (_, WorkerPool.Updating ops _)) :: b' =>
      Z.of_nat (List.length (filter is_add ops)) + pending_adds b'
  | _ :: b' => pending_adds b'
  end.

(** The workers whose submission succeeded and that are in their
    updates. *)
Fixpoint succeeding (b : list WorkerPool.job) : Z :=
  match b with
  | [] => 0
  | (_, (_, WorkerPool.Updating _ None)) :: b' => 1 + succeeding b'
  | _ :: b' => succeeding b'
  end.

Definition adds_of (ph : WorkerPool.phase) : Z :=
  match ph with
  | WorkerPool.Posting => 0
  | WorkerPool.Updating ops _ => Z.of_nat (List.length (filter is_add ops))
  end.

Definition success_of (ph : WorkerPool.phase) : Z :=
  match ph with
  | WorkerPool.Updating _ None => 1
  | _ => 0
  end.

(** [numSubmitted] and the increments still to come account for the
    successes of the history and of the workers in their updates, [d]
    being the initial value. *)
Definition counted (d : Z) (p : WorkerPool.pool) : Prop :=
  in_int64 (numSubmitted (WorkerPool.progress p))
  /\ wrap64 (numSubmitted (WorkerPool.progress p)
             + pending_adds (WorkerPool.busy p))
     = wrap64 (d + Z.of_nat (List.length
                               (WorkerPool.successes (WorkerPool.history p)))
               + succeeding (WorkerPool.busy p)).

(** The workers that are busy are distinct and among the [workers]
    started; the queue holds no more than its capacity. *)
Definition bounded (workers : nat) (p : WorkerPool.pool) : Prop :=
  NoDup (map fst (WorkerPool.busy p))
  /\ Forall (fun j : WorkerPool.job => (fst j < workers)%nat)
            (WorkerPool.busy p)
  /\ len (WorkerPool.queue p) <= WorkerPool.capacity.

(** The offsets of the first [n] pages from [offset] on. *)
Definition page_offsets (offset : Z) (n : nat) : list Z :=
  map (fun k => offset + maxChains * Z.of_nat k) (seq 0 n).

(** The identifiers of a list of chains never decrease. *)
Fixpoint ascending (d : Z) (l : list chain) : Prop :=
  match l with
  | [] => True
  | x :: l' => d <= ID x /\ ascending (ID x) l'
  end.

End Measures.

(** ** More stores and logs used as examples *)

Module MoreFixtures.

(** A chain reported with two end-entity certificates, and a chain one of
    whose certificates is missing from the store. *)
Definition chainD : chain := mkChain (Some [x0d]) 4 [].
Definition chainE : chain := mkChain (Some [x0e]) 5 [].
Definition chainF : chain := mkChain (Some [x0f]) 6 [].

Definition certZ : list byte := [x30; x82; x03].

Definition recordsD : list Spec.CertRecord :=
  [Spec.mkRecord "leaf1" Fixtures.certX true;
   Spec.mkRecord "ca" Fixtures.certY false;
   Spec.mkRecord "leaf2" certZ true].

Definition reportsE : list report :=
  [mkReport "ca" false; mkReport "gone" true; mkReport "leaf1" true].

Definition reportsF : list report :=
  [mkReport "ca" false; mkReport "null" true].

Definition db4 : DbMap :=
  mkDb (fun limit offset =>
          Ok (Fixtures.page [chainD; chainE; chainF] limit offset))
       (fun fp =>
          match fp with
          | Some [x0d] => Ok (map Spec.report_of recordsD)
          | Some [x0e] => Ok reportsE
          | Some [x0f] => Ok reportsF
          | _ => Ok []
          end)
       (fun fp =>
          if String.eqb fp "leaf1" then Ok (Some Fixtures.certX)
          else if String.eqb fp "ca" then Ok (Some Fixtures.certY)
          else if String.eqb fp "leaf2" then Ok (Some certZ)
          else if String.eqb fp "null" then Ok None
          else Err ErrNoRows).

(** A log that refuses every chain, with a body that cannot be read to
    its end. *)
Definition refusing_log (url contentType body : string) : result Response :=
  Ok (mkResponse 400
        (Some (mkBody (list_byte_of_string "bad request")
                      (Some (ReadError "unexpected EOF"))))).

(** A log that accepts a submission unless it is the string [bad]. *)
Definition picky_log (url contentType body : string) : result Response :=
  if String.eqb body "bad"
  then Ok (mkResponse 400 (Some (mkBody (list_byte_of_string "no") None)))
  else Ok (mkResponse StatusOK (Some (mkBody Fixtures.sct_body None))).

(** One worker, two chains, one after the other. *)
Definition sequential : list WorkerPool.event :=
  [WorkerPool.Push; WorkerPool.Push;
   WorkerPool.Receive 0; WorkerPool.Respond 0 Fixtures.now;
   WorkerPool.Atomic 0; WorkerPool.Atomic 0; WorkerPool.Atomic 0;
   WorkerPool.Receive 0; WorkerPool.Respond 0 Fixtures.now;
   WorkerPool.Atomic 0; WorkerPool.Atomic 0; WorkerPool.Atomic 0].

End MoreFixtures.

(** * Properties *)

(** ** Machine integers *)

Lemma wrap64_small (z : Z) : in_int64 z -> wrap64 z = z.
Proof.
  unfold in_int64, min_int64, max_int64, wrap64. intros H.
  rewrite Z.mod_small by lia. lia.
Qed.

Lemma wrap64_range (z : Z) : in_int64 (wrap64 z).
Proof.
  unfold in_int64, min_int64, max_int64, wrap64.
  pose proof (Z.mod_pos_bound (z + 2 ^ 63) (2 ^ 64) ltac:(lia)). lia.
Qed.

(** ** ChainSource *)

Module ChainSourceFacts.
Import ChainSource.

(** One more iteration: a full page is sent and the loop goes on from the
    advanced offset. *)
Lemma loop_full_page (fuel : nat) (db : DbMap) (offset : Z) (chains : list chain) :
  selectChains db maxChains offset = Ok chains ->
  maxChains <= len chains ->
  getChains_loop (S fuel) db offset =
    (Query offset :: Send chains
       :: fst (getChains_loop fuel db (wrap64 (offset + len chains))),
     snd (getChains_loop fuel db (wrap64 (offset + len chains)))).
Proof.
  intros Hsel Hlen. cbn [getChains_loop]. rewrite Hsel.
  destruct (len chains <? maxChains) eqn:E.
  - apply Z.ltb_lt in E. lia.
  - destruct (getChains_loop fuel db (wrap64 (offset + len chains))).
    reflexivity.
Qed.

(** A short page is sent and ends the loop. *)
Lemma loop_short_page (fuel : nat) (db : DbMap) (offset : Z) (chains : list chain) :
  selectChains db maxChains offset = Ok chains ->
  len chains < maxChains ->
  getChains_loop (S fuel) db offset =
    ([Query offset; Send chains], Returned None).
Proof.
  intros Hsel Hlen. cbn [getChains_loop]. rewrite Hsel.
  apply Z.ltb_lt in Hlen. rewrite Hlen. reflexivity.
Qed.

(** In every run, a page shorter than the page size is the last event:
    no query follows it. *)
Lemma short_page_is_last (fuel : nat) (db : DbMap) :
  forall (offset : Z) (pre post : list event) (b : list chain),
    fst (getChains_loop fuel db offset) = pre ++ Send b :: post ->
    len b < maxChains ->
    post = [].
Proof.
  induction fuel as [|fuel IH]; intros offset pre post b Hev Hshort.
  - cbn in Hev. destruct pre; discriminate.
  - cbn [getChains_loop] in Hev.
    destruct (selectChains db maxChains offset) as [chains|e] eqn:Hsel.
    + destruct (len chains <? maxChains) eqn:E.
      * cbn in Hev.
        destruct pre as [|e0 [|e1 pre]]; cbn in Hev; try discriminate.
        -- inversion Hev. reflexivity.
        -- inversion Hev as [[H0 H1 H2]]. destruct pre; discriminate.
      * destruct (getChains_loop fuel db (wrap64 (offset + len chains)))
          as [evs out] eqn:Hrec.
        cbn in Hev.
        destruct pre as [|e0 [|e1 pre]]; cbn in Hev; try discriminate.
        -- inversion Hev; subst.
           apply Z.ltb_ge in E. lia.
        -- inversion Hev as [[H0 H1 H2]].
           apply (IH (wrap64 (offset + len chains)) pre post b); [|exact Hshort].
           rewrite Hrec. exact H2.
    + destruct e; cbn in Hev;
        destruct pre as [|e0 pre]; cbn in Hev; try discriminate;
        inversion Hev as [[H0 H1]]; destruct pre; discriminate.
Qed.

End ChainSourceFacts.

(** C5. Started at offset 0 against a store that answers the query at
    offset 0 with a page of 1000 identities and the query at offset 1000
    with a page of 400, [getChains] returns without error after exactly two
    queries, at offsets 0 and 1000, has sent the two pages, 1400 identities
    in all, and has sent no query after the short page. *)
Theorem getChains_two_pages
  (db : DbMap) (page1 page2 : list chain) (fuel : nat) :
  selectChains db maxChains 0 = Ok page1 ->
  List.length page1 = 1000%nat ->
  selectChains db maxChains 1000 = Ok page2 ->
  List.length page2 = 400%nat ->
  (2 <= fuel)%nat ->
  snd (ChainSource.getChains fuel db 0) = ChainSource.Returned None
  /\ fst (ChainSource.getChains fuel db 0)
     = [ChainSource.Query 0; ChainSource.Send page1;
        ChainSource.Query 1000; ChainSource.Send page2]
  /\ ChainSource.queries (fst (ChainSource.getChains fuel db 0)) = [0; 1000]
  /\ ChainSource.emitted (fst (ChainSource.getChains fuel db 0)) = 1400%nat.
Proof.
  intros H1 L1 H2 L2 Hfuel.
  destruct fuel as [|[|fuel]]; try lia.
  unfold ChainSource.getChains.
  rewrite (ChainSourceFacts.loop_full_page _ _ _ _ H1)
    by (unfold len, maxChains; rewrite L1; lia).
  replace (wrap64 (0 + len page1)) with 1000
    by (unfold len; rewrite L1; reflexivity).
  rewrite (ChainSourceFacts.loop_short_page _ _ _ _ H2)
    by (unfold len, maxChains; rewrite L2; lia).
  cbn [fst snd ChainSource.queries].
  repeat split.
  unfold ChainSource.emitted. cbn [ChainSource.batches List.concat].
  rewrite app_nil_r, length_app, L1, L2. reflexivity.
Qed.

Lemma getChains_two_pages_witness :
  snd (ChainSource.getChains 5 Fixtures.db1400 0) = ChainSource.Returned None
  /\ fst (ChainSource.getChains 5 Fixtures.db1400 0)
     = [ChainSource.Query 0;
        ChainSource.Send (Fixtures.page Fixtures.table1400 1000 0);
        ChainSource.Query 1000;
        ChainSource.Send (Fixtures.page Fixtures.table1400 1000 1000)]
  /\ ChainSource.queries (fst (ChainSource.getChains 5 Fixtures.db1400 0))
     = [0; 1000]
  /\ ChainSource.emitted (fst (ChainSource.getChains 5 Fixtures.db1400 0))
     = 1400%nat.
Proof.
  apply (getChains_two_pages Fixtures.db1400
           (Fixtures.page Fixtures.table1400 1000 0)
           (Fixtures.page Fixtures.table1400 1000 1000) 5).
  - reflexivity.
  - vm_compute. reflexivity.
  - reflexivity.
  - vm_compute. reflexivity.
  - lia.
Defined.

(** ** ChainAssembler and the assembly loop *)

Module AssemblerFacts.
Import ChainAssembler Spec.

(** The loop over a fetched record set never fails; it appends the
    intermediates in fetch order. *)
Lemma collect_fetched (db : DbMap) (records : list CertRecord) :
  Forall (fun r => selectRawCert db (fingerprint r) = Ok (Some (rawBytes r)))
         records ->
  forall (leaf : byteSlice) (others : list byteSlice),
    collect db (map report_of records) leaf others
    = Ok (last_leaf records leaf,
          others ++ map raw_of (filter is_intermediate records)).
Proof.
  induction 1 as [|r records Hr _ IH]; intros leaf others; cbn.
  - rewrite app_nil_r. reflexivity.
  - rewrite Hr. unfold is_intermediate at 1.
    destruct (isEndEntity r); cbn.
    + apply IH.
    + rewrite IH, <- app_assoc. reflexivity.
Qed.

Lemma last_leaf_none (records : list CertRecord) (leaf : byteSlice) :
  filter isEndEntity records = [] ->
  last_leaf records leaf = leaf.
Proof.
  revert leaf. induction records as [|r records IH]; intros leaf H; cbn in *.
  - reflexivity.
  - destruct (isEndEntity r); [discriminate | apply IH, H].
Qed.

Lemma last_leaf_one (records : list CertRecord) (l : CertRecord) :
  filter isEndEntity records = [l] ->
  forall leaf, last_leaf records leaf = raw_of l.
Proof.
  induction records as [|r records IH]; intros H leaf; cbn in *.
  - discriminate.
  - destruct (isEndEntity r).
    + inversion H; subst. apply last_leaf_none. assumption.
    + apply IH, H.
Qed.

(** A chain whose [getCerts] fails is left out and the loop goes on. *)
Lemma assemble_batch_app (db : DbMap) (l1 l2 : list chain) :
  Orchestrator.assemble_batch db (l1 ++ l2)
  = Orchestrator.assemble_batch db l1 ++ Orchestrator.assemble_batch db l2.
Proof.
  induction l1 as [|c l1 IH]; cbn; [reflexivity|].
  destruct (getCerts db c); rewrite IH; reflexivity.
Qed.

Lemma assemble_batch_skips (db : DbMap) (c : chain) (e : error)
      (pre post : list chain) :
  getCerts db c = Err e ->
  Orchestrator.assemble_batch db (pre ++ c :: post)
  = Orchestrator.assemble_batch db pre ++ Orchestrator.assemble_batch db post.
Proof.
  intros H. rewrite assemble_batch_app. cbn. rewrite H. reflexivity.
Qed.

End AssemblerFacts.

(** C4. When the record set fetched for a chain has exactly one end-entity
    record, [getCerts] succeeds and the certificates of the chain are the
    raw bytes of that record followed by the raw bytes of the other
    records, in the order they were fetched. *)
Theorem getCerts_leaf_first
  (db : DbMap) (c : chain) (records : list Spec.CertRecord)
  (leaf : Spec.CertRecord) :
  Spec.fetched db c records ->
  filter Spec.isEndEntity records = [leaf] ->
  ChainAssembler.getCerts db c
  = Ok (mkChain (Fingerprint c) (ID c)
          (Some (Spec.rawBytes leaf)
             :: map Spec.raw_of (filter Spec.is_intermediate records))).
Proof.
  intros [Hreports Hraw] Hone.
  unfold ChainAssembler.getCerts. rewrite Hreports.
  rewrite (AssemblerFacts.collect_fetched db records Hraw).
  rewrite (AssemblerFacts.last_leaf_one records leaf Hone).
  reflexivity.
Qed.

Lemma getCerts_leaf_first_witness :
  ChainAssembler.getCerts Fixtures.db3 Fixtures.chainB
  = Ok (mkChain (Some [x0b]) 2
          [Some Fixtures.certX; Some Fixtures.certY]).
Proof.
  apply (getCerts_leaf_first Fixtures.db3 Fixtures.chainB Fixtures.recordsB
           (Spec.mkRecord "leafB" Fixtures.certX true)).
  - split; [reflexivity|].
    repeat constructor.
  - reflexivity.
Defined.

(** C6. When the record set fetched for a chain has no end-entity record,
    [getCerts] fails with the validation error "chain without end-entity",
    and the assembly loop sends nothing for that chain and goes on with the
    identities that follow it. *)
Theorem no_end_entity_is_skipped
  (db : DbMap) (c : chain) (records : list Spec.CertRecord) :
  Spec.fetched db c records ->
  filter Spec.isEndEntity records = [] ->
  ChainAssembler.getCerts db c = Err (ErrorString "chain without end-entity")
  /\ Orchestrator.assemble_batch db [c] = []
  /\ forall pre post : list chain,
      Orchestrator.assemble_batch db (pre ++ c :: post)
      = Orchestrator.assemble_batch db pre
          ++ Orchestrator.assemble_batch db post.
Proof.
  intros [Hreports Hraw] Hzero.
  assert (Herr : ChainAssembler.getCerts db c
                 = Err (ErrorString "chain without end-entity")).
  { unfold ChainAssembler.getCerts. rewrite Hreports.
    rewrite (AssemblerFacts.collect_fetched db records Hraw).
    rewrite (AssemblerFacts.last_leaf_none records None Hzero).
    reflexivity. }
  split; [exact Herr|]. split.
  - cbn. rewrite Herr. reflexivity.
  - intros pre post. exact (AssemblerFacts.assemble_batch_skips _ _ _ _ _ Herr).
Qed.

Lemma no_end_entity_is_skipped_witness :
  ChainAssembler.getCerts Fixtures.db3 Fixtures.chainC
  = Err (ErrorString "chain without end-entity")
  /\ Orchestrator.assemble_batch Fixtures.db3 [Fixtures.chainC] = []
  /\ forall pre post : list chain,
      Orchestrator.assemble_batch Fixtures.db3 (pre ++ Fixtures.chainC :: post)
      = Orchestrator.assemble_batch Fixtures.db3 pre
          ++ Orchestrator.assemble_batch Fixtures.db3 post.
Proof.
  apply (no_end_entity_is_skipped Fixtures.db3 Fixtures.chainC
           Fixtures.recordsC).
  - split; [reflexivity|]. repeat constructor.
  - reflexivity.
Defined.

(** C3, as the program behaves. A store-level error while the certificate
    records of a chain are fetched is not fatal: the assembly loop sends
    nothing for that chain and goes on with the identities that follow
    it. *)
Theorem store_error_is_skipped
  (db : DbMap) (c : chain) (e : error) :
  ChainAssembler.getCerts db c = Err e ->
  Spec.is_store_error e = true ->
  Orchestrator.assemble_batch db [c] = []
  /\ forall pre post : list chain,
      Orchestrator.assemble_batch db (pre ++ c :: post)
      = Orchestrator.assemble_batch db pre
          ++ Orchestrator.assemble_batch db post.
Proof.
  intros Herr _. split.
  - cbn. rewrite Herr. reflexivity.
  - intros pre post. exact (AssemblerFacts.assemble_batch_skips _ _ _ _ _ Herr).
Qed.

Lemma store_error_is_skipped_witness :
  Orchestrator.assemble_batch Fixtures.db3 [Fixtures.chainA] = []
  /\ forall pre post : list chain,
      Orchestrator.assemble_batch Fixtures.db3 (pre ++ Fixtures.chainA :: post)
      = Orchestrator.assemble_batch Fixtures.db3 pre
          ++ Orchestrator.assemble_batch Fixtures.db3 post.
Proof.
  apply (store_error_is_skipped Fixtures.db3 Fixtures.chainA
           (StoreError "invalid connection")).
  - reflexivity.
  - reflexivity.
Defined.

(** ** Encoding of a submission *)

Module EncodingFacts.
Import Base64 Json Spec.

(** The test vectors of RFC 4648. *)
Example rfc4648_vectors :
  EncodeToString [] = ""%string
  /\ EncodeToString (list_byte_of_string "f") = "Zg=="%string
  /\ EncodeToString (list_byte_of_string "fo") = "Zm8="%string
  /\ EncodeToString (list_byte_of_string "foo") = "Zm9v"%string
  /\ EncodeToString (list_byte_of_string "foob") = "Zm9vYg=="%string
  /\ EncodeToString (list_byte_of_string "fooba") = "Zm9vYmE="%string
  /\ EncodeToString (list_byte_of_string "foobar") = "Zm9vYmFy"%string.
Proof. repeat split. Qed.

Lemma sextet_std (v : N) : is_std_char (sextet v) = true.
Proof.
  unfold sextet.
  assert (Hk : (N.to_nat (N.land v 63) < 64)%nat).
  { change 63%N with (N.ones 6). rewrite N.land_ones.
    pose proof (N.mod_upper_bound v (2 ^ 6) ltac:(discriminate)) as H.
    change (2 ^ 6)%N with 64%N in *. lia. }
  revert Hk. generalize (N.to_nat (N.land v 63)). intros k Hk.
  do 64 (destruct k as [|k]; [reflexivity|]). lia.
Qed.

Lemma pad_std : is_std_char padChar = true.
Proof. reflexivity. Qed.

Lemma EncodeToString_std_upto (n : nat) :
  forall src : list byte,
    (List.length src <= n)%nat ->
    all_chars is_std_char (EncodeToString src) = true.
Proof.
  induction n as [|n IH]; intros src Hlen.
  - destruct src; [reflexivity | cbn in Hlen; lia].
  - destruct src as [|a [|b [|c rest]]]; cbn [EncodeToString all_chars].
    + reflexivity.
    + rewrite !sextet_std, pad_std. reflexivity.
    + rewrite !sextet_std, pad_std. reflexivity.
    + rewrite !sextet_std. cbn [andb]. apply IH. cbn in Hlen. lia.
Qed.

(** An encoding is made of the characters of the standard alphabet and
    of the padding character. *)
Lemma EncodeToString_std (src : list byte) :
  all_chars is_std_char (EncodeToString src) = true.
Proof. exact (EncodeToString_std_upto (List.length src) src (le_n _)). Qed.

Lemma std_char_safe (c : ascii) :
  is_std_char c = true ->
  htmlSafe c = true /\ (N_of_ascii c <? 128)%N = true.
Proof.
  destruct c as [[] [] [] [] [] [] [] []]; cbn; intros H;
    try discriminate H; split; reflexivity.
Qed.

(** The encoder copies a string of such characters between quotes. *)
Lemma appendString_from_std (s : string) :
  all_chars is_std_char s = true ->
  appendString_from s 0 true = s.
Proof.
  induction s as [|c s IH]; cbn [all_chars appendString_from]; intros H.
  - reflexivity.
  - apply andb_prop in H. destruct H as [Hc Hs].
    destruct (std_char_safe c Hc) as [Hsafe Hascii].
    rewrite Hascii. unfold escape_ascii. rewrite Hsafe.
    cbn. rewrite (IH Hs). reflexivity.
Qed.

Lemma appendString_std (s : string) :
  all_chars is_std_char s = true -> appendString s = quoted s.
Proof.
  intros H. unfold appendString. rewrite (appendString_from_std s H).
  reflexivity.
Qed.

(** Marshalling a slice of strings cannot fail. *)
Lemma Marshal_strings (l : list string) :
  Marshal (VSlice (map VString l))
  = Ok ("[" ++ join "," (map appendString l) ++ "]")%string.
Proof.
  cbn [Marshal].
  match goal with
  | |- match ?f (map VString l) with _ => _ end = _ =>
      assert (H : forall l', f (map VString l') = Ok (map appendString l'))
  end.
  { induction l' as [|s l' IH]; cbn [map]; [reflexivity|].
    cbn [Marshal]. rewrite IH. reflexivity. }
  rewrite H. reflexivity.
Qed.

(** The loop of [certsToSub] appends one encoding per certificate, in
    order; the slice stays nil when there is no certificate. *)
Lemma certsToSub_loop_chain (certs : list byteSlice) :
  forall sub : ctSubmission,
    Chain (certsToSub_loop certs sub)
    = match certs with
      | [] => Chain sub
      | _ => Some (slice_elems (Chain sub) ++ map encode_cert certs)
      end.
Proof.
  induction certs as [|c certs IH]; intros sub; [reflexivity|].
  unfold certsToSub_loop in *. cbn [fold_left]. rewrite IH.
  cbn [Chain]. destruct certs as [|c' certs].
  - destruct (Chain sub); reflexivity.
  - destruct (Chain sub); cbn [append slice_elems map];
      rewrite <- ?app_assoc; reflexivity.
Qed.

Lemma map_appendString_std (l : list string) :
  Forall (fun s => all_chars is_std_char s = true) l ->
  map appendString l = map quoted l.
Proof.
  induction 1 as [|s l Hs _ IH]; cbn; [reflexivity|].
  rewrite (appendString_std s Hs), IH. reflexivity.
Qed.

Lemma encodings_std (certs : list byteSlice) :
  Forall (fun s => all_chars is_std_char s = true) (map encode_cert certs).
Proof.
  induction certs; cbn; constructor; [apply EncodeToString_std | assumption].
Qed.

(** [certsToSub] returns: it cannot reach its [panic]. *)
Lemma certsToSub_returns (certs : list byteSlice) :
  certsToSub certs
  = Returns (Spec.submission_body (map encode_cert certs)).
Proof.
  unfold certsToSub, ctSubmission_value.
  rewrite (certsToSub_loop_chain certs (mkSub None)). cbn [Chain slice_elems].
  destruct certs as [|c certs].
  - reflexivity.
  - cbn [app].
    set (strs := map encode_cert (c :: certs)).
    assert (Hm := Marshal_strings strs).
    rewrite (map_appendString_std strs (encodings_std (c :: certs))) in Hm.
    cbn [Marshal] in Hm |- *. rewrite Hm.
    unfold Spec.submission_body. subst strs. cbn [map]. reflexivity.
Qed.

(** The chain [[X, Y]] and the empty chain. *)
Example certsToSub_XY :
  certsToSub [Some Fixtures.certX; Some Fixtures.certY]
  = Returns ("{" ++ quoted "chain" ++ ":["
               ++ quoted "MIIB" ++ "," ++ quoted "MIICCg==" ++ "]}")%string
  /\ certsToSub [] = Returns ("{" ++ quoted "chain" ++ ":null}")%string.
Proof. split; reflexivity. Qed.

End EncodingFacts.

(** C10. For every list of certificates, the empty one included,
    [json.Marshal] returns no error on the submission built by
    [certsToSub], so [certsToSub] returns and does not panic; what it
    returns is the JSON object whose [chain] field lists one string for
    each certificate, in the order of the input, each string being the
    standard base64 encoding of the certificate's bytes. *)
Theorem certsToSub_total (certs : list byteSlice) :
  (exists j : string,
      Json.Marshal (ctSubmission_value (certsToSub_loop certs (mkSub None)))
      = Ok j
      /\ certsToSub certs = Returns j)
  /\ certsToSub certs
     = Returns (Spec.submission_body
                  (map (fun c => Base64.EncodeToString (slice_bytes c)) certs))
  /\ Forall (fun s => Base64.all_chars Base64.is_std_char s = true)
            (map (fun c => Base64.EncodeToString (slice_bytes c)) certs).
Proof.
  pose proof (EncodingFacts.certsToSub_returns certs) as Hret.
  split; [|split].
  - unfold certsToSub in *.
    destruct (Json.Marshal
                (ctSubmission_value (certsToSub_loop certs (mkSub None))))
      as [j|e]; [|discriminate].
    exists j. split; reflexivity.
  - exact Hret.
  - exact (EncodingFacts.encodings_std certs).
Qed.

(** ** Submission and the worker pool *)

Module PoolFacts.
Import Submission WorkerPool.

(** [submit] on the simulated client. *)
Lemma submit_dry (U : list byte -> result Z) (x : chain) (now : Z) :
  submit U dryClient x now = ([], Panics NilDereference).
Proof.
  unfold submit. rewrite EncodingFacts.certsToSub_returns. reflexivity.
Qed.

Lemma iteration_shapes (U : list byte -> result Z) (c : httpClient)
      (x : chain) (now : Z) :
  iteration_shape (ID x) (worker_iteration U c x now).
Proof.
  unfold worker_iteration, submit.
  destruct (certsToSub (certs x)); [|constructor].
  destruct (Post c logAddr "encoding/json" a) as [resp|e]; [|constructor].
  destruct (Body resp) as [rc|]; [|constructor].
  destruct (negb (StatusCode resp =? StatusOK)).
  - destruct (ReadAll rc). constructor.
  - destruct (ReadAll rc) as [b [e|]]; [constructor|].
    destruct (U b) as [ts|e]; [|constructor].
    rewrite <- app_assoc. cbn [app].
    apply (shape_success (ID x) (ts >? cutoff now)).
Qed.

(** A worker iteration that ends without error leaves the chain's
    identifier in [lastSubmittedChain], whatever was there, and counts
    one submission. *)
Lemma iteration_effect (U : list byte -> result Z) (c : httpClient)
      (x : chain) (now : Z) (st : ProgressState) (ops : list atomic_op) :
  worker_iteration U c x now = (ops, Returns None) ->
  lastSubmittedChain (exec_ops ops st) = ID x
  /\ numSubmitted (exec_ops ops st) = wrap64 (numSubmitted st + 1).
Proof.
  intros H. pose proof (iteration_shapes U c x now) as Hs.
  rewrite H in Hs. inversion Hs as [| |new Hops]; subst.
  destruct new; cbn; split; reflexivity.
Qed.

Lemma last_success_app (h : list (chain * option error)) (x : chain)
      (err : option error) :
  forall d : Z,
    last_success (h ++ [(x, err)]) d
    = match err with
      | None => ID x
      | Some _ => last_success h d
      end.
Proof.
  induction h as [|[y [e|]] h IH]; intros d; cbn.
  - destruct err; reflexivity.
  - apply IH.
  - rewrite IH. destruct err; reflexivity.
Qed.

(** Taking a job out of the busy list. *)
Lemma take_job_Forall (P : job -> Prop) (w : nat) :
  forall (b b' : list job) (j : chain * phase),
    take_job w b = Some (j, b') ->
    Forall P b ->
    P (w, j) /\ Forall P b'.
Proof.
  induction b as [|[w' j'] b IH]; intros b' j Ht Hall; cbn in Ht.
  - discriminate.
  - inversion Hall as [|? ? Hhd Htl]; subst.
    destruct (Nat.eqb w w') eqn:E.
    + apply Nat.eqb_eq in E. subst w'. inversion Ht; subst. split; assumption.
    + destruct (take_job w b) as [[j1 b1]|] eqn:Hrec; [|discriminate].
      inversion Ht; subst.
      destruct (IH b1 j eq_refl Htl) as [Hj Hb1].
      split; [assumption | constructor; assumption].
Qed.

Lemma take_job_Exists (P : job -> Prop) (w : nat) :
  forall (b b' : list job) (j : chain * phase),
    take_job w b = Some (j, b') ->
    Exists P b ->
    P (w, j) \/ Exists P b'.
Proof.
  induction b as [|[w' j'] b IH]; intros b' j Ht Hex; cbn in Ht.
  - discriminate.
  - destruct (Nat.eqb w w') eqn:E.
    + apply Nat.eqb_eq in E. subst w'. inversion Ht; subst.
      inversion Hex; subst; [left | right]; assumption.
    + destruct (take_job w b) as [[j1 b1]|] eqn:Hrec; [|discriminate].
      inversion Ht; subst.
      inversion Hex as [? ? Hhd|? ? Htl]; subst.
      * right. apply Exists_cons_hd. assumption.
      * destruct (IH b1 j eq_refl Htl) as [Hj|Hb1].
        -- left. assumption.
        -- right. apply Exists_cons_tl. assumption.
Qed.

Lemma well_formed_start (x : chain) (new : bool) (w : nat) :
  well_formed
    (w, (x, Updating
              ((if new then [AddNumNewSubmitted] else [])
                 ++ [StoreLastSubmittedChain (ID x); AddNumSubmitted;
                     StoreLastSubmittedChain (ID x)])
              None)).
Proof.
  cbn. split; [reflexivity|]. split.
  - destruct new; repeat constructor.
  - exists ((if new then [AddNumNewSubmitted] else [])
              ++ [StoreLastSubmittedChain (ID x); AddNumSubmitted]).
    rewrite <- app_assoc. reflexivity.
Qed.

Lemma well_formed_next (x : chain) (w : nat) (op op' : atomic_op)
      (rest : list atomic_op) (err : option error) :
  well_formed (w, (x, Updating (op :: op' :: rest) err)) ->
  well_formed (w, (x, Updating (op' :: rest) err)).
Proof.
  cbn. intros [He [Hall [ops' Hops]]]. split; [exact He|]. split.
  - inversion Hall; assumption.
  - destruct ops' as [|o ops']; cbn in Hops.
    + inversion Hops.
    + inversion Hops as [[H0 H1]]. exists ops'. exact H1.
Qed.

Lemma well_formed_last (x : chain) (w : nat) (op : atomic_op)
      (err : option error) :
  well_formed (w, (x, Updating [op] err)) ->
  op = StoreLastSubmittedChain (ID x) /\ err = None.
Proof.
  cbn. intros [He [_ [ops' Hops]]]. split; [|exact He].
  destruct ops' as [|o [|o' ops']]; cbn in Hops; inversion Hops.
  reflexivity.
Qed.

Section Invariant.

Variable U : list byte -> result Z.
Variable c : httpClient.
Variable workers : nat.
Variable d : Z.

Lemma step_keeps_latest (ev : event) (p p' : pool) :
  latest d p ->
  step U c workers ev p = Some (Running p') ->
  latest d p'.
Proof.
  unfold latest. intros [Hwf Hlast] Hstep.
  destruct ev as [|w|w now|w]; cbn [step] in Hstep.
  - (* Push *)
    destruct (unsent p); [discriminate|].
    destruct (len (queue p) <? capacity); [|discriminate].
    inversion Hstep; subst; cbn. split; assumption.
  - (* Receive *)
    destruct (Nat.ltb w workers && negb (is_busy w (busy p))); [|discriminate].
    destruct (queue p); [discriminate|].
    inversion Hstep; subst; cbn. split.
    + constructor; [exact I | assumption].
    + destruct Hlast as [Hl|Hl]; [left | right; apply Exists_cons_tl];
        assumption.
  - (* Respond *)
    destruct (take_job w (busy p)) as [[[x ph] b]|] eqn:Ht; [|discriminate].
    destruct ph as [|ops0 err0]; [|discriminate].
    destruct (take_job_Forall _ _ _ _ _ Ht Hwf) as [_ Hwfb].
    assert (Hexb : Exists (updating_with (lastSubmittedChain (progress p)))
                          (busy p) ->
                   Exists (updating_with (lastSubmittedChain (progress p))) b).
    { intros Hex. destruct (take_job_Exists _ _ _ _ _ Ht Hex) as [H|H];
        [destruct H | exact H]. }
    pose proof (iteration_shapes U c x now) as Hshape.
    destruct (worker_iteration U c x now) as [ops out].
    inversion Hshape as [r|e|new]; subst.
    + discriminate.
    + inversion Hstep; subst; cbn. split; [assumption|].
      rewrite last_success_app.
      destruct Hlast as [Hl|Hl]; [left | right; apply Hexb]; assumption.
    + assert (Hp' : p' = mkPool (unsent p) (queue p)
                      ((w, (x, Updating
                                 ((if new then [AddNumNewSubmitted] else [])
                                    ++ [StoreLastSubmittedChain (ID x);
                                        AddNumSubmitted;
                                        StoreLastSubmittedChain (ID x)])
                                 None)) :: b)
                      (progress p) (history p)).
      { destruct new; cbn in Hstep; inversion Hstep; reflexivity. }
      subst p'. cbn [busy progress history]. split.
      * constructor; [apply well_formed_start | assumption].
      * destruct Hlast as [Hl|Hl];
          [left | right; apply Exists_cons_tl, Hexb]; assumption.
  - (* Atomic *)
    destruct (take_job w (busy p)) as [[[x ph] b]|] eqn:Ht; [|discriminate].
    destruct ph as [|[|op rest] err]; try discriminate.
    destruct (take_job_Forall _ _ _ _ _ Ht Hwf) as [Hwfj Hwfb].
    destruct rest as [|op' rest].
    + (* the last operation of the iteration *)
      destruct (well_formed_last _ _ _ _ Hwfj) as [Hop Herr]. subst op err.
      inversion Hstep; subst; cbn. split; [assumption|].
      left. rewrite last_success_app. reflexivity.
    + inversion Hstep; subst; cbn [busy progress history]. split.
      * constructor; [exact (well_formed_next _ _ _ _ _ _ Hwfj) | assumption].
      * destruct op as [|i|].
        -- cbn [exec_op lastSubmittedChain].
           destruct Hlast as [Hl|Hl]; [left; assumption|right].
           destruct (take_job_Exists _ _ _ _ _ Ht Hl) as [H|H].
           ++ apply Exists_cons_hd. exact H.
           ++ apply Exists_cons_tl. exact H.
        -- right. apply Exists_cons_hd. cbn.
           destruct Hwfj as [_ [Hall _]]. inversion Hall as [|? ? Hown _]; subst.
           exact (eq_sym Hown) || exact Hown.
        -- cbn [exec_op lastSubmittedChain].
           destruct Hlast as [Hl|Hl]; [left; assumption|right].
           destruct (take_job_Exists _ _ _ _ _ Ht Hl) as [H|H].
           ++ apply Exists_cons_hd. exact H.
           ++ apply Exists_cons_tl. exact H.
Qed.

Lemma run_keeps_latest (evs : list event) :
  forall p p' : pool,
    latest d p ->
    run U c workers evs p = Some (Running p') ->
    latest d p'.
Proof.
  induction evs as [|ev evs IH]; intros p p' Hinv Hrun; cbn in Hrun.
  - inversion Hrun; subst. exact Hinv.
  - destruct (step U c workers ev p) as [[p1|r p1]|] eqn:Hstep;
      try discriminate.
    apply (IH p1 p'); [|exact Hrun].
    exact (step_keeps_latest ev p p1 Hinv Hstep).
Qed.

End Invariant.

Lemma latest_start (q : list chain) (st : ProgressState) :
  latest (lastSubmittedChain st) (start q st).
Proof. split; [constructor | left; reflexivity]. Qed.

(** With the simulated client the first answer takes the process down:
    no worker reaches its updates, the counters keep their values and no
    iteration ends. *)
Lemma dry_run_no_progress (U : list byte -> result Z) (workers : nat)
      (evs : list event) :
  forall p : pool,
    all_posting p ->
    match run U dryClient workers evs p with
    | Some (Running p') | Some (Crashed _ p') =>
        progress p' = progress p /\ history p' = history p
    | None => True
    end.
Proof.
  induction evs as [|ev evs IH]; intros p Hpost; cbn [run].
  - split; reflexivity.
  - destruct ev as [|w|w now|w]; cbn [step].
    + destruct (unsent p) as [|x rest]; [exact I|].
      destruct (len (queue p) <? capacity); [|exact I].
      exact (IH (mkPool rest (queue p ++ [x]) (busy p) (progress p)
                        (history p)) Hpost).
    + destruct (Nat.ltb w workers && negb (is_busy w (busy p))); [|exact I].
      destruct (queue p) as [|x q]; [exact I|].
      apply (IH (mkPool (unsent p) q ((w, (x, Posting)) :: busy p)
                        (progress p) (history p))).
      constructor; [reflexivity | exact Hpost].
    + destruct (take_job w (busy p)) as [[[x ph] b]|]; [|exact I].
      destruct ph; [|exact I].
      unfold worker_iteration. rewrite submit_dry. cbn.
      split; reflexivity.
    + destruct (take_job w (busy p)) as [[[x ph] b]|] eqn:Ht; [|exact I].
      destruct (take_job_Forall _ _ _ _ _ Ht Hpost) as [Hj _].
      cbn in Hj. subst ph. exact I.
Qed.

End PoolFacts.

(** C1, as the program behaves. A worker whose submission succeeds stores
    the chain's identifier in [lastSubmittedChain] whatever the value
    there, with no comparison; so whenever no worker is in the middle of
    an iteration, in particular once every chain has been processed,
    [lastSubmittedChain] is the identifier of the successfully submitted
    chain whose iteration ended last (and its initial value when no
    submission succeeded), however the updates of the workers
    interleaved. *)
Theorem last_submitted_is_last_completed
  (U : list byte -> result Z) (c : httpClient) (workers : nat)
  (evs : list WorkerPool.event) (q : list chain) (st : ProgressState)
  (p : WorkerPool.pool) :
  WorkerPool.run U c workers evs (WorkerPool.start q st)
  = Some (WorkerPool.Running p) ->
  WorkerPool.busy p = [] ->
  lastSubmittedChain (WorkerPool.progress p)
  = WorkerPool.last_success (WorkerPool.history p) (lastSubmittedChain st).
Proof.
  intros Hrun Hidle.
  destruct (PoolFacts.run_keeps_latest U c workers (lastSubmittedChain st)
              evs (WorkerPool.start q st) p
              (PoolFacts.latest_start q st) Hrun) as [_ [Hl|Hl]].
  - exact Hl.
  - rewrite Hidle in Hl. inversion Hl.
Qed.

(** The run of two workers that ends with the chains 5 and 3 submitted, in
    this order: [lastSubmittedChain] is 3. *)
Lemma last_submitted_is_last_completed_witness :
  lastSubmittedChain
    (WorkerPool.progress
       (WorkerPool.mkPool [] [] []
          (mkProgress 3 2 0)
          [(Fixtures.chain5, None); (Fixtures.chain3, None)]))
  = WorkerPool.last_success
      [(Fixtures.chain5, None); (Fixtures.chain3, None)]
      (lastSubmittedChain Orchestrator.initial_progress).
Proof.
  apply (last_submitted_is_last_completed Fixtures.Unmarshal
           (liveClient Fixtures.accepting_log) 2 Fixtures.out_of_order
           [Fixtures.chain3; Fixtures.chain5] Orchestrator.initial_progress).
  - vm_compute. reflexivity.
  - reflexivity.
Defined.

(** C1, as stated, fails: the chains 3 and 5 are queued in this order, two
    workers receive them, both submissions succeed, and the worker holding
    chain 5 ends its iteration first. Every chain has been processed,
    [lastSubmittedChain] is 3, the maximum among the submitted chains
    is 5. *)
Lemma max_merge_counterexample :
  exists p : WorkerPool.pool,
    WorkerPool.run Fixtures.Unmarshal (liveClient Fixtures.accepting_log) 2
      Fixtures.out_of_order
      (WorkerPool.start [Fixtures.chain3; Fixtures.chain5]
                        Orchestrator.initial_progress)
    = Some (WorkerPool.Running p)
    /\ WorkerPool.drained p = true
    /\ WorkerPool.successes (WorkerPool.history p)
       = [Fixtures.chain5; Fixtures.chain3]
    /\ lastSubmittedChain (WorkerPool.progress p) = 3
    /\ WorkerPool.max_ID (WorkerPool.successes (WorkerPool.history p))
                         (lastSubmittedChain Orchestrator.initial_progress) = 5
    /\ lastSubmittedChain (WorkerPool.progress p)
       <> WorkerPool.max_ID (WorkerPool.successes (WorkerPool.history p))
                            (lastSubmittedChain Orchestrator.initial_progress).
Proof.
  eexists. split; [vm_compute; reflexivity|].
  repeat split. cbn. discriminate.
Qed.

(** C2, on the program. With the simulated client, [submit] panics on
    every chain before any counter is updated: the response of [dryClient]
    has no body, and [submit] calls [Close] on it. A pool that runs with
    this client stops at the first answer and never counts a submission:
    [numSubmitted] keeps its value and no iteration ends. *)
Theorem dry_run_submit_panics
  (U : list byte -> result Z) (submission : chain) (now : Z)
  (workers : nat) (evs : list WorkerPool.event) (q : list chain)
  (st : ProgressState) :
  Submission.submit U dryClient submission now = ([], Panics NilDereference)
  /\ WorkerPool.run U dryClient 1
       [WorkerPool.Push; WorkerPool.Receive 0; WorkerPool.Respond 0 now]
       (WorkerPool.start [submission] st)
     = Some (WorkerPool.Crashed NilDereference
               (WorkerPool.mkPool [] []
                  [(0%nat, (submission, WorkerPool.Posting))] st []))
  /\ match WorkerPool.run U dryClient workers evs (WorkerPool.start q st) with
     | Some (WorkerPool.Running p) | Some (WorkerPool.Crashed _ p) =>
         numSubmitted (WorkerPool.progress p) = numSubmitted st
         /\ WorkerPool.history p = []
     | None => True
     end.
Proof.
  split; [apply PoolFacts.submit_dry|]. split.
  - cbn. unfold Submission.worker_iteration.
    rewrite PoolFacts.submit_dry. reflexivity.
  - pose proof (PoolFacts.dry_run_no_progress U workers evs
                  (WorkerPool.start q st) (Forall_nil _)) as H.
    destruct (WorkerPool.run U dryClient workers evs (WorkerPool.start q st))
      as [[p|r p]|]; [| |exact I];
      destruct H as [Hp Hh]; rewrite Hp, Hh; split; reflexivity.
Qed.

(** ** The count of new submissions *)

Module NewCountFacts.
Import Submission.

(** What [submit] does when the log answers 200 with a body that decodes
    to [timestamp]: the new-submission counter is incremented exactly
    when [timestamp] exceeds the cutoff, a number of microseconds. *)
Lemma submit_accepted (U : list byte -> result Z) (c : httpClient)
      (x : chain) (now : Z) (resp : Response) (rc : ReadCloser)
      (timestamp : Z) :
  Post c logAddr "encoding/json"
       (Spec.submission_body (map Spec.encode_cert (certs x)))
  = Ok resp ->
  Body resp = Some rc ->
  StatusCode resp = StatusOK ->
  read_error rc = None ->
  U (content rc) = Ok timestamp ->
  submit U c x now
  = ((if timestamp >? cutoff now then [AddNumNewSubmitted] else [])
       ++ [StoreLastSubmittedChain (ID x); AddNumSubmitted],
     Returns None).
Proof.
  intros HP HB HS HR HU. unfold submit.
  rewrite EncodingFacts.certsToSub_returns, HP, HB, HS.
  cbn [negb Z.eqb StatusOK Pos.eqb]. unfold ReadAll. rewrite HR, HU.
  reflexivity.
Qed.

(** The cutoff is the current time minus one hour in microseconds, as
    long as that time is a valid [int64] count of nanoseconds. *)
Lemma cutoff_microseconds (now : Z) :
  hour_ns <= now <= max_int64 ->
  cutoff now = (now - hour_ns) / 1000.
Proof.
  intros H. unfold cutoff.
  rewrite wrap64_small
    by (unfold in_int64, min_int64, max_int64, hour_ns in *; lia).
  apply Z.quot_div_nonneg; lia.
Qed.

(** Read as microseconds, the comparison of [submit] is the one of the
    specification. *)
Lemma cutoff_compares_microseconds (timestamp now : Z) :
  hour_ns <= now <= max_int64 ->
  (timestamp >? cutoff now) = (now - hour_ns <? timestamp * 1000).
Proof.
  intros H. rewrite (cutoff_microseconds now H).
  pose proof (Z.div_mod (now - hour_ns) 1000 ltac:(lia)) as Hdm.
  pose proof (Z.mod_pos_bound (now - hour_ns) 1000 ltac:(lia)) as Hm.
  destruct (timestamp >? (now - hour_ns) / 1000) eqn:E1;
    destruct (now - hour_ns <? timestamp * 1000) eqn:E2;
    try reflexivity.
  - apply Z.gtb_lt in E1. apply Z.ltb_ge in E2. lia.
  - apply Z.ltb_lt in E2. rewrite Z.gtb_ltb in E1. apply Z.ltb_ge in E1. lia.
Qed.

End NewCountFacts.

(** C8, on the program. On 2015-10-31 at 00:00:00 UTC the log answers 200
    with a timestamp one minute old, in the milliseconds of RFC 6962: the
    timestamp is within the last hour, the submission succeeds and
    [numSubmitted] is incremented, yet [numNewSubmitted] is not: [submit]
    compares the timestamp with a cutoff in microseconds. *)
Theorem new_count_compares_microseconds :
  Fixtures.Unmarshal Fixtures.sct_body = Ok Fixtures.timestamp_ms
  /\ Spec.within_last_hour Fixtures.timestamp_ms Fixtures.now = true
  /\ Submission.cutoff Fixtures.now = 1446246000000000
  /\ Submission.submit Fixtures.Unmarshal (liveClient Fixtures.accepting_log)
       Fixtures.chain3 Fixtures.now
     = ([StoreLastSubmittedChain 3; AddNumSubmitted], Returns None)
  /\ exec_ops
       (fst (Submission.submit Fixtures.Unmarshal
               (liveClient Fixtures.accepting_log) Fixtures.chain3 Fixtures.now))
       Orchestrator.initial_progress
     = mkProgress 3 1 0.
Proof.
  repeat split; vm_compute; reflexivity.
Qed.

(** ** StatsReporter *)

Module StatsFacts.
Import StatsReporter.

(** The rate of a tick: the difference of the counter over the constant
    30, whatever the interval of the ticker. *)
Lemma tick_rate (lastNumSubmitted : Z) (o : observation) :
  rate (fst (tick lastNumSubmitted o))
  = PrimFloat.div
      (float64_of_int64
         (wrap64 (numSubmitted (counters o) - lastNumSubmitted)))
      30%float
  /\ snd (tick lastNumSubmitted o) = numSubmitted (counters o).
Proof. split; reflexivity. Qed.

(** With an interval of 30 seconds the two rates agree on this tick. *)
Example rate_at_30_seconds :
  PrimFloat.eqb
    (rate (fst (tick 0 (mkObservation 0 0 (mkProgress 0 30 0)))))
    (spec_rate 30 (30 * 1000000000))
  = true.
Proof. vm_compute. reflexivity. Qed.

End StatsFacts.

(** C9, on the program. With the default interval of 15 seconds and 30
    submissions counted between two ticks, the second tick reports a rate
    of 1.00 per second; the difference over the elapsed seconds is 2.00
    per second. [printStats] divides by the constant 30.0. *)
Theorem stats_rate_divides_by_30 :
  map StatsReporter.rate
      (StatsReporter.printStats
         [StatsReporter.mkObservation 0 0 (mkProgress 7 10 0);
          StatsReporter.mkObservation 0 0 (mkProgress 40 40 0)])
  = [PrimFloat.div 10%float 30%float; 1%float]
  /\ StatsReporter.spec_rate (40 - 10) StatsReporter.default_statPeriod
     = 2%float
  /\ PrimFloat.eqb
       (StatsReporter.rate
          (fst (StatsReporter.tick 10
                  (StatsReporter.mkObservation 0 0 (mkProgress 40 40 0)))))
       (StatsReporter.spec_rate (40 - 10) StatsReporter.default_statPeriod)
     = false.
Proof.
  repeat split; vm_compute; reflexivity.
Qed.

(** ** Orchestrator *)

Module OrchestratorFacts.
Import Orchestrator.

(** When [main] returns, the deferred function prints the value of
    [lastSubmittedChain] and the process exits with status 0. *)
Lemma main_completes
      (U : list byte -> result Z)
      (roundTrip : string -> string -> string -> result Response)
      (fuel : nat) (db : DbMap) (dryRun : bool) (initOffset : Z)
      (workers : nat) (schedule : list WorkerPool.event)
      (evs : list ChainSource.event) (p : WorkerPool.pool) :
  ChainSource.getChains fuel db initOffset
  = (evs, ChainSource.Returned None) ->
  WorkerPool.run U (if dryRun then dryClient else liveClient roundTrip)
    workers schedule
    (WorkerPool.start (assemble db (ChainSource.batches evs))
                      initial_progress)
  = Some (WorkerPool.Running p) ->
  WorkerPool.drained p = true ->
  main U roundTrip fuel (Ok db) dryRun initOffset workers schedule
  = Some (mkTermination
            [LastSubmittedLine (lastSubmittedChain (WorkerPool.progress p))]
            0).
Proof.
  intros Hsrc Hrun Hdr. unfold main. rewrite Hsrc, Hrun, Hdr. reflexivity.
Qed.

(** An error of [getChains] ends the process from its goroutine. *)
Lemma main_source_error
      (U : list byte -> result Z)
      (roundTrip : string -> string -> string -> result Response)
      (fuel : nat) (db : DbMap) (dryRun : bool) (initOffset : Z)
      (workers : nat) (schedule : list WorkerPool.event)
      (evs : list ChainSource.event) (err : error) :
  ChainSource.getChains fuel db initOffset
  = (evs, ChainSource.Returned (Some err)) ->
  main U roundTrip fuel (Ok db) dryRun initOffset workers schedule
  = Some crash.
Proof.
  intros Hsrc. unfold main. rewrite Hsrc. reflexivity.
Qed.

(** Under dry-run the first iteration that ends takes the process down. *)
Example main_dry_run_crashes :
  main Fixtures.Unmarshal Fixtures.accepting_log 5 (Ok Fixtures.db3) true 0 1
       Fixtures.first_answer
  = Some crash.
Proof. vm_compute. reflexivity. Qed.

End OrchestratorFacts.

(** C3, as stated, fails: the reports of the first chain of the store
    cannot be read, a store-level error; the assembly loop goes on, the
    second chain is assembled and submitted, and the process ends normally
    with status 0. *)
Lemma store_error_not_fatal :
  ChainAssembler.getCerts Fixtures.db3 Fixtures.chainA
  = Err (StoreError "invalid connection")
  /\ Spec.is_store_error (StoreError "invalid connection") = true
  /\ Orchestrator.assemble Fixtures.db3
       [[Fixtures.chainA; Fixtures.chainB; Fixtures.chainC]]
     = [Fixtures.assembledB]
  /\ Orchestrator.main Fixtures.Unmarshal Fixtures.accepting_log 5
       (Ok Fixtures.db3) false 0 1 Fixtures.one_worker
     = Some (Orchestrator.mkTermination [Orchestrator.LastSubmittedLine 2] 0).
Proof.
  repeat split; vm_compute; reflexivity.
Qed.

(** C7, on the program. When the store cannot be reached, [getChains]
    returns an error and its goroutine panics: the process ends with
    status 2 and the deferred function of [main] has not run, so no line
    records [lastSubmittedChain]. The status is not zero, the record is
    missing. *)
Theorem source_error_skips_record
  (U : list byte -> result Z)
  (roundTrip : string -> string -> string -> result Response)
  (fuel : nat) (dryRun : bool) (initOffset : Z) (workers : nat)
  (schedule : list WorkerPool.event) :
  ChainSource.getChains (S fuel) Fixtures.db_down initOffset
  = ([ChainSource.Query initOffset],
     ChainSource.Returned (Some (StoreError "connection refused")))
  /\ Orchestrator.main U roundTrip (S fuel) (Ok Fixtures.db_down) dryRun
       initOffset workers schedule
     = Some (Orchestrator.mkTermination [] 2).
Proof.
  split; reflexivity.
Qed.

(** * Further properties of the program *)

(** ** More on ChainSource *)

Module PagingFacts.
Import ChainSource.

Lemma page_short (table : list chain) (o : Z) :
  (List.length (skipn (Z.to_nat o) table) < 1000)%nat ->
  Fixtures.page table maxChains o = skipn (Z.to_nat o) table.
Proof.
  intros H. unfold Fixtures.page. apply firstn_all2.
  change (Z.to_nat maxChains) with 1000%nat. lia.
Qed.

Lemma page_full (table : list chain) (o : Z) :
  (1000 <= List.length (skipn (Z.to_nat o) table))%nat ->
  List.length (Fixtures.page table maxChains o) = 1000%nat.
Proof.
  intros H. unfold Fixtures.page. apply firstn_length_le.
  change (Z.to_nat maxChains) with 1000%nat. lia.
Qed.

Lemma div_1000_step (n : nat) :
  (1000 <= n)%nat -> (n / 1000 = S ((n - 1000) / 1000))%nat.
Proof.
  intros H. replace n with (1 * 1000 + (n - 1000))%nat at 1 by lia.
  rewrite Nat.div_add_l by discriminate. reflexivity.
Qed.

Lemma offsets_step (offset : Z) (n : nat) :
  offset :: Measures.page_offsets (offset + 1000) n
  = Measures.page_offsets offset (S n).
Proof.
  unfold Measures.page_offsets. cbn [seq map].
  rewrite <- seq_shift, map_map. f_equal.
  - unfold maxChains. lia.
  - apply map_ext. intros k. unfold maxChains. lia.
Qed.

(** Against a store that answers as LIMIT and OFFSET over a table, the
    loop returns without error and has sent the table from the offset
    on. *)
Lemma loop_whole_table (db : DbMap) (table : list chain) :
  (forall o, 0 <= o ->
             selectChains db maxChains o = Ok (Fixtures.page table maxChains o)) ->
  Z.of_nat (List.length table) + maxChains <= max_int64 ->
  forall (fuel : nat) (offset : Z),
    0 <= offset ->
    (List.length (skipn (Z.to_nat offset) table) / 1000 < fuel)%nat ->
    snd (getChains_loop fuel db offset) = Returned None
    /\ List.concat (batches (fst (getChains_loop fuel db offset)))
       = skipn (Z.to_nat offset) table
    /\ queries (fst (getChains_loop fuel db offset))
       = Measures.page_offsets offset
           (S (List.length (skipn (Z.to_nat offset) table) / 1000)).
Proof.
  intros Hdb Hmax. induction fuel as [|fuel IH]; intros offset Hoff Hfuel.
  - lia.
  - set (rest := skipn (Z.to_nat offset) table) in *.
    destruct (Nat.lt_ge_cases (List.length rest) 1000) as [Hshort|Hfull].
    + rewrite (ChainSourceFacts.loop_short_page fuel db offset
                 (Fixtures.page table maxChains offset) (Hdb offset Hoff)).
      2:{ unfold len. rewrite (page_short table offset Hshort).
          fold rest. unfold maxChains. lia. }
      cbn [fst snd batches queries List.concat].
      rewrite (page_short table offset Hshort), app_nil_r. fold rest.
      rewrite (Nat.div_small _ _ Hshort). repeat split.
      unfold Measures.page_offsets. cbn. f_equal. lia.
    + assert (Hlen := page_full table offset Hfull).
      assert (Hskip : (Z.to_nat offset + 1000 <= List.length table)%nat).
      { unfold rest in Hfull. rewrite length_skipn in Hfull. lia. }
      assert (Hnext : wrap64 (offset + len (Fixtures.page table maxChains offset))
                      = offset + 1000).
      { unfold len. rewrite Hlen. apply wrap64_small.
        unfold in_int64, min_int64, max_int64, maxChains in *. lia. }
      rewrite (ChainSourceFacts.loop_full_page fuel db offset
                 (Fixtures.page table maxChains offset) (Hdb offset Hoff)).
      2:{ unfold len. rewrite Hlen. unfold maxChains. lia. }
      rewrite Hnext.
      assert (Hrest : skipn (Z.to_nat (offset + 1000)) table = skipn 1000 rest).
      { unfold rest. rewrite skipn_skipn. f_equal. lia. }
      destruct (IH (offset + 1000) ltac:(lia)) as [Hout [Hcat Hq]].
      { rewrite Hrest, length_skipn.
        rewrite (div_1000_step _ Hfull) in Hfuel. lia. }
      cbn [fst snd batches queries List.concat].
      rewrite Hout, Hcat, Hq, Hrest, length_skipn.
      rewrite (div_1000_step _ Hfull).
      repeat split.
      * unfold Fixtures.page. change (Z.to_nat maxChains) with 1000%nat.
        fold rest. apply firstn_skipn.
      * apply offsets_step.
Qed.

(** How a run that returns has ended. *)
Lemma loop_end (db : DbMap) (fuel : nat) :
  forall (offset : Z) (res : option error),
    snd (getChains_loop fuel db offset) = Returned res ->
    (exists pre b,
        fst (getChains_loop fuel db offset) = pre ++ [Send b]
        /\ len b < maxChains /\ res = None)
    \/ (exists pre o e,
           fst (getChains_loop fuel db offset) = pre ++ [Query o]
           /\ selectChains db maxChains o = Err e
           /\ res = Measures.error_result e).
Proof.
  induction fuel as [|fuel IH]; intros offset res Hres.
  - discriminate.
  - cbn [getChains_loop] in *.
    destruct (selectChains db maxChains offset) as [chains|e] eqn:Hsel.
    + destruct (len chains <? maxChains) eqn:E.
      * left. exists [Query offset], chains. cbn in *.
        apply Z.ltb_lt in E. inversion Hres. repeat split; assumption.
      * destruct (getChains_loop fuel db (wrap64 (offset + len chains)))
          as [evs out] eqn:Hrec.
        cbn [fst snd] in *.
        specialize (IH (wrap64 (offset + len chains)) res).
        rewrite Hrec in IH. cbn [fst snd] in IH.
        destruct (IH Hres) as [[pre [b [He [Hb Hr]]]]|[pre [o [e [He [Ho Hr]]]]]].
        -- left. exists (Query offset :: Send chains :: pre), b.
           rewrite He. repeat split; assumption.
        -- right. exists (Query offset :: Send chains :: pre), o, e.
           rewrite He. repeat split; assumption.
    + right. exists [], offset, e.
      destruct e; cbn in *; inversion Hres; repeat split; assumption.
Qed.

End PagingFacts.

(** X1. Against a store that answers every page query as LIMIT and
    OFFSET over one table, [getChains] started at a non-negative offset
    returns without error, the batches it sent make up the table from
    that offset on, each row once and in order, and its queries are at the
    offset, the offset plus 1000, and so on, one more than there are full
    pages. *)
Theorem getChains_sends_whole_table
  (db : DbMap) (table : list chain) (fuel : nat) (initOffset : Z) :
  (forall o, 0 <= o ->
             selectChains db maxChains o = Ok (Fixtures.page table maxChains o)) ->
  Z.of_nat (List.length table) + maxChains <= max_int64 ->
  0 <= initOffset ->
  (List.length (skipn (Z.to_nat initOffset) table) / 1000 < fuel)%nat ->
  snd (ChainSource.getChains fuel db initOffset) = ChainSource.Returned None
  /\ List.concat
       (ChainSource.batches (fst (ChainSource.getChains fuel db initOffset)))
     = skipn (Z.to_nat initOffset) table
  /\ ChainSource.queries (fst (ChainSource.getChains fuel db initOffset))
     = Measures.page_offsets initOffset
         (S (List.length (skipn (Z.to_nat initOffset) table) / 1000)).
Proof.
  intros Hdb Hmax Hoff Hfuel.
  exact (PagingFacts.loop_whole_table db table Hdb Hmax fuel initOffset
           Hoff Hfuel).
Qed.

Lemma getChains_sends_whole_table_witness :
  snd (ChainSource.getChains 3 Fixtures.db1400 250) = ChainSource.Returned None
  /\ List.concat
       (ChainSource.batches (fst (ChainSource.getChains 3 Fixtures.db1400 250)))
     = skipn (Z.to_nat 250) Fixtures.table1400
  /\ ChainSource.queries (fst (ChainSource.getChains 3 Fixtures.db1400 250))
     = Measures.page_offsets 250
         (S (List.length (skipn (Z.to_nat 250) Fixtures.table1400) / 1000)).
Proof.
  apply (getChains_sends_whole_table Fixtures.db1400 Fixtures.table1400 3 250).
  - intros o _. reflexivity.
  - vm_compute. discriminate.
  - lia.
  - vm_compute. lia.
Defined.

(** X2. A call of [getChains] that returns has ended in one of two
    ways: on a page shorter than the page size, which it sent, with no
    error; or on a failed query, with the error of that query, except
    that [sql.ErrNoRows] is returned as no error. *)
Theorem getChains_ends_on_short_page_or_error
  (db : DbMap) (fuel : nat) (initOffset : Z) (res : option error) :
  snd (ChainSource.getChains fuel db initOffset) = ChainSource.Returned res ->
  (exists pre b,
      fst (ChainSource.getChains fuel db initOffset)
      = pre ++ [ChainSource.Send b]
      /\ len b < maxChains /\ res = None)
  \/ (exists pre o e,
         fst (ChainSource.getChains fuel db initOffset)
         = pre ++ [ChainSource.Query o]
         /\ selectChains db maxChains o = Err e
         /\ res = Measures.error_result e).
Proof.
  exact (PagingFacts.loop_end db fuel initOffset res).
Qed.

Lemma getChains_ends_on_short_page_or_error_witness :
  (exists pre b,
      fst (ChainSource.getChains 1 Fixtures.db_down 7)
      = pre ++ [ChainSource.Send b]
      /\ len b < maxChains
      /\ Some (StoreError "connection refused") = None)
  \/ (exists pre o e,
         fst (ChainSource.getChains 1 Fixtures.db_down 7)
         = pre ++ [ChainSource.Query o]
         /\ selectChains Fixtures.db_down maxChains o = Err e
         /\ Some (StoreError "connection refused") = Measures.error_result e).
Proof.
  apply (getChains_ends_on_short_page_or_error Fixtures.db_down 1 7).
  reflexivity.
Defined.

(** X3. In every run of [getChains], whatever the store answers, a page
    shorter than the page size is the last thing that happens: no query
    and no batch follow it. *)
Theorem getChains_stops_after_short_page
  (db : DbMap) (fuel : nat) (initOffset : Z)
  (pre post : list ChainSource.event) (b : list chain) :
  fst (ChainSource.getChains fuel db initOffset)
  = pre ++ ChainSource.Send b :: post ->
  len b < maxChains ->
  post = [].
Proof.
  exact (ChainSourceFacts.short_page_is_last fuel db initOffset pre post b).
Qed.

Lemma getChains_stops_after_short_page_witness :
  @nil ChainSource.event = [].
Proof.
  apply (getChains_stops_after_short_page Fixtures.db3 4 0
           [ChainSource.Query 0] []
           [Fixtures.chainA; Fixtures.chainB; Fixtures.chainC]).
  - reflexivity.
  - reflexivity.
Defined.

(** ** More on ChainAssembler and the assembly loop *)

Module LeafFacts.
Import ChainAssembler Spec.

Lemma last_leaf_last (records : list CertRecord) :
  forall (pre : list CertRecord) (l : CertRecord) (leaf : byteSlice),
    filter isEndEntity records = pre ++ [l] ->
    last_leaf records leaf = raw_of l.
Proof.
  induction records as [|r records IH]; intros pre l leaf H; cbn in *.
  - destruct pre; discriminate.
  - destruct (isEndEntity r) eqn:E.
    + destruct pre as [|r' pre]; cbn in H; inversion H; subst.
      * apply AssemblerFacts.last_leaf_none. assumption.
      * apply (IH pre l). assumption.
    + apply (IH pre l). assumption.
Qed.

(** The loop stops at the first lookup that fails. *)
Lemma collect_stops (db : DbMap) (r : report) (e : error)
      (post : list report) :
  selectRawCert db (CertFP r) = Err e ->
  forall (pre : list report) (leaf : byteSlice) (others : list byteSlice),
    Forall (fun q => exists raw, selectRawCert db (CertFP q) = Ok raw) pre ->
    collect db (pre ++ r :: post) leaf others = Err e.
Proof.
  intros Hr. induction pre as [|q pre IH]; intros leaf others Hpre; cbn.
  - rewrite Hr. reflexivity.
  - inversion Hpre as [|? ? [raw Hq] Hpre']; subst. rewrite Hq.
    destruct (EndEntity q); apply IH; assumption.
Qed.

(** No leaf is found when every end-entity lookup yields a nil slice. *)
Lemma collect_nil_leaves (db : DbMap) (reports : list report) :
  Forall (fun q => exists raw, selectRawCert db (CertFP q) = Ok raw) reports ->
  Forall (fun q => EndEntity q = true ->
                   selectRawCert db (CertFP q) = Ok None) reports ->
  forall others : list byteSlice,
    exists others', collect db reports None others = Ok (None, others').
Proof.
  induction reports as [|q reports IH]; intros Hok Hnil others; cbn.
  - exists others. reflexivity.
  - inversion Hok as [|? ? [raw Hq] Hok']; subst.
    inversion Hnil as [|? ? Hq' Hnil']; subst.
    destruct (EndEntity q) eqn:E.
    + rewrite (Hq' eq_refl). apply IH; assumption.
    + rewrite Hq. apply IH; assumption.
Qed.

(** What a successful [getCerts] returns. *)
Lemma getCerts_ok (db : DbMap) (c a : chain) :
  getCerts db c = Ok a ->
  Fingerprint a = Fingerprint c /\ ID a = ID c
  /\ exists leaf others, certs a = Some leaf :: others.
Proof.
  unfold getCerts. intros H.
  destruct (selectReports db (Fingerprint c)) as [reports|e]; [|discriminate].
  destruct (collect db reports None []) as [[[leaf|] others]|e];
    try discriminate.
  inversion H; subst; cbn. repeat split. exists leaf, others. reflexivity.
Qed.

Lemma string_app_assoc (s1 s2 s3 : string) :
  ((s1 ++ s2) ++ s3 = s1 ++ (s2 ++ s3))%string.
Proof.
  induction s1 as [|ch s1 IH]; cbn; [reflexivity|]. rewrite IH. reflexivity.
Qed.

Lemma assemble_batch_identities (db : DbMap) (l : list chain) :
  map Measures.identity_of (Orchestrator.assemble_batch db l)
  = map Measures.identity_of (filter (Measures.assembles db) l).
Proof.
  induction l as [|c l IH]; cbn; [reflexivity|].
  unfold Measures.assembles at 1.
  destruct (getCerts db c) as [a|e] eqn:E; cbn; [|exact IH].
  destruct (getCerts_ok db c a E) as [Hf [Hi _]].
  rewrite IH. unfold Measures.identity_of at 1 3. rewrite Hf, Hi. reflexivity.
Qed.

Lemma assemble_batch_leaf (db : DbMap) (l : list chain) :
  Forall (fun a => exists leaf others, certs a = Some leaf :: others)
         (Orchestrator.assemble_batch db l).
Proof.
  induction l as [|c l IH]; cbn; [constructor|].
  destruct (getCerts db c) as [a|e] eqn:E; [|exact IH].
  constructor; [|exact IH]. apply (getCerts_ok db c a E).
Qed.

End LeafFacts.

(** X4. When the record set fetched for a chain has several end-entity
    records, [getCerts] succeeds with the raw bytes of the last of them
    first; the earlier end-entity certificates are dropped, and the other
    records follow in the order they were fetched. *)
Theorem getCerts_last_leaf_wins
  (db : DbMap) (c : chain) (records earlier : list Spec.CertRecord)
  (leaf : Spec.CertRecord) :
  Spec.fetched db c records ->
  filter Spec.isEndEntity records = earlier ++ [leaf] ->
  ChainAssembler.getCerts db c
  = Ok (mkChain (Fingerprint c) (ID c)
          (Some (Spec.rawBytes leaf)
             :: map Spec.raw_of (filter Spec.is_intermediate records))).
Proof.
  intros [Hreports Hraw] Hleaves.
  unfold ChainAssembler.getCerts. rewrite Hreports.
  rewrite (AssemblerFacts.collect_fetched db records Hraw).
  rewrite (LeafFacts.last_leaf_last records earlier leaf None Hleaves).
  reflexivity.
Qed.

Lemma getCerts_last_leaf_wins_witness :
  ChainAssembler.getCerts MoreFixtures.db4 MoreFixtures.chainD
  = Ok (mkChain (Some [x0d]) 4
          [Some MoreFixtures.certZ; Some Fixtures.certY]).
Proof.
  apply (getCerts_last_leaf_wins MoreFixtures.db4 MoreFixtures.chainD
           MoreFixtures.recordsD
           [Spec.mkRecord "leaf1" Fixtures.certX true]
           (Spec.mkRecord "leaf2" MoreFixtures.certZ true)).
  - split; [reflexivity|]. repeat constructor.
  - reflexivity.
Defined.

(** X5. [getCerts] fails with the error of the first certificate lookup
    that fails, whatever the reports before and after it say: a leaf found
    earlier or listed later does not save the chain. An error of the
    reports query is returned likewise. *)
Theorem getCerts_returns_first_lookup_error
  (db : DbMap) (c : chain) (pre post : list report) (r : report) (e : error) :
  selectReports db (Fingerprint c) = Ok (pre ++ r :: post) ->
  Forall (fun q => exists raw, selectRawCert db (CertFP q) = Ok raw) pre ->
  selectRawCert db (CertFP r) = Err e ->
  ChainAssembler.getCerts db c = Err e.
Proof.
  intros Hreports Hpre Hr.
  unfold ChainAssembler.getCerts. rewrite Hreports.
  rewrite (LeafFacts.collect_stops db r e post Hr pre None [] Hpre).
  reflexivity.
Qed.

Lemma getCerts_returns_first_lookup_error_witness :
  ChainAssembler.getCerts MoreFixtures.db4 MoreFixtures.chainE = Err ErrNoRows.
Proof.
  apply (getCerts_returns_first_lookup_error MoreFixtures.db4
           MoreFixtures.chainE [mkReport "ca" false]
           [mkReport "leaf1" true] (mkReport "gone" true) ErrNoRows).
  - reflexivity.
  - constructor; [exists (Some Fixtures.certY); reflexivity | constructor].
  - reflexivity.
Defined.

(** X6. [getCerts] tells a missing leaf by a nil slice: when every
    lookup succeeds and each end-entity certificate of the chain has no
    bytes in the store (a NULL [raw_cert], which leaves the slice nil),
    the chain is refused with "chain without end-entity" although it has
    end-entity reports. *)
Theorem getCerts_nil_leaf_is_no_leaf
  (db : DbMap) (c : chain) (reports : list report) :
  selectReports db (Fingerprint c) = Ok reports ->
  Forall (fun q => exists raw, selectRawCert db (CertFP q) = Ok raw) reports ->
  Forall (fun q => EndEntity q = true ->
                   selectRawCert db (CertFP q) = Ok None) reports ->
  ChainAssembler.getCerts db c = Err (ErrorString "chain without end-entity").
Proof.
  intros Hreports Hok Hnil.
  unfold ChainAssembler.getCerts. rewrite Hreports.
  destruct (LeafFacts.collect_nil_leaves db reports Hok Hnil []) as [o Ho].
  rewrite Ho. reflexivity.
Qed.

Lemma getCerts_nil_leaf_is_no_leaf_witness :
  ChainAssembler.getCerts MoreFixtures.db4 MoreFixtures.chainF
  = Err (ErrorString "chain without end-entity").
Proof.
  apply (getCerts_nil_leaf_is_no_leaf MoreFixtures.db4 MoreFixtures.chainF
           MoreFixtures.reportsF).
  - reflexivity.
  - constructor; [exists (Some Fixtures.certY); reflexivity|].
    constructor; [exists None; reflexivity | constructor].
  - constructor; [cbn; intros H; discriminate H|].
    constructor; [intros _; reflexivity | constructor].
Defined.

(** X7. The assembly loop sends, in the order of the batch, exactly the
    chains on which [getCerts] succeeds, each with the fingerprint and the
    identifier it came with; and every chain it sends has at least one
    certificate, the first of which is not nil. *)
Theorem assemble_keeps_order_and_identity (db : DbMap) (batch : list chain) :
  map Measures.identity_of (Orchestrator.assemble_batch db batch)
  = map Measures.identity_of (filter (Measures.assembles db) batch)
  /\ Forall (fun a => exists leaf others, certs a = Some leaf :: others)
            (Orchestrator.assemble_batch db batch).
Proof.
  split.
  - apply LeafFacts.assemble_batch_identities.
  - apply LeafFacts.assemble_batch_leaf.
Qed.

(** X8. The body [certsToSub] makes for a chain that [getCerts]
    assembled is never the [null] form: its [chain] field is an array that
    starts with the encoding of the leaf. *)
Theorem assembled_chain_body_is_array (db : DbMap) (c a : chain) :
  ChainAssembler.getCerts db c = Ok a ->
  exists (leaf : list byte) (others : list byteSlice),
    certs a = Some leaf :: others
    /\ certsToSub (certs a)
       = Returns ("{" ++ Json.quoted "chain" ++ ":["
                    ++ Json.join ","
                         (map Json.quoted
                              (Base64.EncodeToString leaf
                                 :: map Spec.encode_cert others))
                    ++ "]}")%string.
Proof.
  intros H.
  destruct (LeafFacts.getCerts_ok db c a H) as [_ [_ [leaf [others Hc]]]].
  exists leaf, others. split; [exact Hc|].
  rewrite EncodingFacts.certsToSub_returns, Hc.
  unfold Spec.submission_body. cbn [map].
  change (Spec.encode_cert (Some leaf)) with (Base64.EncodeToString leaf).
  cbn [String.append Json.quoted]. rewrite LeafFacts.string_app_assoc.
  reflexivity.
Qed.

Lemma assembled_chain_body_is_array_witness :
  exists (leaf : list byte) (others : list byteSlice),
    certs Fixtures.assembledB = Some leaf :: others
    /\ certsToSub (certs Fixtures.assembledB)
       = Returns ("{" ++ Json.quoted "chain" ++ ":["
                    ++ Json.join ","
                         (map Json.quoted
                              (Base64.EncodeToString leaf
                                 :: map Spec.encode_cert others))
                    ++ "]}")%string.
Proof.
  apply (assembled_chain_body_is_array Fixtures.db3 Fixtures.chainB).
  reflexivity.
Defined.

(** ** More on submit *)

Module SubmitFacts.
Import Submission.

(** A timestamp in milliseconds that is not in the future is below the
    cutoff, once the clock is an hour and four seconds past the epoch. *)
Lemma milliseconds_below_cutoff (timestamp now : Z) :
  3604 * 1000000000 <= now <= max_int64 ->
  timestamp * 1000000 <= now ->
  (timestamp >? cutoff now) = false.
Proof.
  intros Hnow Hts.
  rewrite NewCountFacts.cutoff_microseconds
    by (unfold hour_ns, max_int64 in *; lia).
  rewrite Z.gtb_ltb. apply Z.ltb_ge.
  unfold hour_ns.
  pose proof (Z.div_mod (now - 3600 * 1000000000) 1000 ltac:(lia)) as Hdm.
  pose proof (Z.mod_pos_bound (now - 3600 * 1000000000) 1000 ltac:(lia)) as Hm.
  lia.
Qed.

End SubmitFacts.

(** X9. When the log answers with a status other than 200, [submit]
    touches no counter and returns the error "non-200 status code, body: "
    followed by the bytes read from the body; when reading the body
    failed, the text of that error is not reported, only the bytes read
    before it. *)
Theorem submit_non_200
  (U : list byte -> result Z)
  (roundTrip : string -> string -> string -> result Response)
  (x : chain) (now : Z) (resp : Response) (rc : ReadCloser) :
  roundTrip logAddr "encoding/json"%string
            (Spec.submission_body (map Spec.encode_cert (certs x)))
  = Ok resp ->
  Body resp = Some rc ->
  StatusCode resp <> StatusOK ->
  Submission.submit U (liveClient roundTrip) x now
  = ([], Returns (Some (ErrorString
                          ("non-200 status code, body: "
                             ++ string_of_list_byte (content rc))))).
Proof.
  intros HP HB HS. unfold Submission.submit.
  rewrite EncodingFacts.certsToSub_returns. cbn [Post]. rewrite HP, HB.
  apply Z.eqb_neq in HS. rewrite HS. reflexivity.
Qed.

Lemma submit_non_200_witness :
  Submission.submit Fixtures.Unmarshal (liveClient MoreFixtures.refusing_log)
    Fixtures.chain3 Fixtures.now
  = ([], Returns (Some (ErrorString
                          ("non-200 status code, body: "
                             ++ string_of_list_byte
                                  (list_byte_of_string "bad request"))))).
Proof.
  apply (submit_non_200 Fixtures.Unmarshal MoreFixtures.refusing_log
           Fixtures.chain3 Fixtures.now
           (mkResponse 400
              (Some (mkBody (list_byte_of_string "bad request")
                            (Some (ReadError "unexpected EOF")))))
           (mkBody (list_byte_of_string "bad request")
                   (Some (ReadError "unexpected EOF")))).
  - reflexivity.
  - reflexivity.
  - discriminate.
Defined.

(** X10. A worker iteration is all or nothing on the counters: when
    the submission fails in any way (transport error, status, unreadable
    or undecodable body) or panics, no counter changes; when it succeeds,
    [lastSubmittedChain] becomes the identifier of the chain, [numSubmitted]
    grows by one and [numNewSubmitted] by one or not at all. *)
Theorem worker_iteration_all_or_nothing
  (U : list byte -> result Z) (c : httpClient) (x : chain) (now : Z)
  (st : ProgressState) :
  match Submission.worker_iteration U c x now with
  | (ops, Returns None) =>
      lastSubmittedChain (exec_ops ops st) = ID x
      /\ numSubmitted (exec_ops ops st) = wrap64 (numSubmitted st + 1)
      /\ (numNewSubmitted (exec_ops ops st) = numNewSubmitted st
          \/ numNewSubmitted (exec_ops ops st)
             = wrap64 (numNewSubmitted st + 1))
  | (ops, _) => exec_ops ops st = st
  end.
Proof.
  destruct (PoolFacts.iteration_shapes U c x now) as [r|e|new].
  - reflexivity.
  - reflexivity.
  - destruct new; cbn; repeat split; [right | left]; reflexivity.
Qed.

(** X11. For a clock between one hour past the epoch and the end of
    the [int64] nanosecond range, the test of [submit] for a new
    submission holds exactly when the timestamp, read as microseconds, is
    later than the current time minus one hour: the truncating division
    by 1000 loses nothing. *)
Theorem new_submission_test_in_microseconds (timestamp now : Z) :
  Submission.hour_ns <= now <= max_int64 ->
  (timestamp >? Submission.cutoff now)
  = (now - Submission.hour_ns <? timestamp * 1000).
Proof.
  exact (NewCountFacts.cutoff_compares_microseconds timestamp now).
Qed.

Lemma new_submission_test_in_microseconds_witness :
  (1446249540000000 >? Submission.cutoff Fixtures.now)
  = (Fixtures.now - Submission.hour_ns <? 1446249540000000 * 1000).
Proof.
  apply (new_submission_test_in_microseconds 1446249540000000 Fixtures.now).
  vm_compute. split; discriminate.
Defined.

(** X12. When the log answers 200 with a timestamp in milliseconds that
    is not in the future, and the clock is at least an hour and four
    seconds past the epoch, [submit] succeeds, stores the identifier and
    counts the submission, and never counts it as new. *)
Theorem millisecond_timestamp_is_never_new
  (U : list byte -> result Z) (c : httpClient) (x : chain) (now : Z)
  (resp : Response) (rc : ReadCloser) (timestamp : Z) :
  Post c logAddr "encoding/json"
       (Spec.submission_body (map Spec.encode_cert (certs x)))
  = Ok resp ->
  Body resp = Some rc ->
  StatusCode resp = StatusOK ->
  read_error rc = None ->
  U (content rc) = Ok timestamp ->
  3604 * 1000000000 <= now <= max_int64 ->
  timestamp * 1000000 <= now ->
  Submission.submit U c x now
  = ([StoreLastSubmittedChain (ID x); AddNumSubmitted], Returns None).
Proof.
  intros HP HB HS HR HU Hnow Hts.
  rewrite (NewCountFacts.submit_accepted U c x now resp rc timestamp
             HP HB HS HR HU).
  rewrite (SubmitFacts.milliseconds_below_cutoff timestamp now Hnow Hts).
  reflexivity.
Qed.

Lemma millisecond_timestamp_is_never_new_witness :
  Submission.submit Fixtures.Unmarshal (liveClient Fixtures.accepting_log)
    Fixtures.chain5 Fixtures.now
  = ([StoreLastSubmittedChain (ID Fixtures.chain5); AddNumSubmitted],
     Returns None).
Proof.
  apply (millisecond_timestamp_is_never_new Fixtures.Unmarshal
           (liveClient Fixtures.accepting_log) Fixtures.chain5 Fixtures.now
           (mkResponse StatusOK (Some (mkBody Fixtures.sct_body None)))
           (mkBody Fixtures.sct_body None) Fixtures.timestamp_ms).
  - reflexivity.
  - reflexivity.
  - reflexivity.
  - reflexivity.
  - vm_compute. reflexivity.
  - vm_compute. split; discriminate.
  - vm_compute. discriminate.
Defined.

(** ** The earlier draft *)

Module DraftFacts.
Import Draft.

Lemma loop_all_accepted (c : httpClient) (submissions : list string) :
  Forall (fun s => submit c s = Returns None) submissions ->
  submitChains_loop c submissions = (submissions, Returns None).
Proof.
  induction 1 as [|s rest Hs _ IH]; cbn; [reflexivity|].
  rewrite Hs, IH. reflexivity.
Qed.

Lemma loop_first_error (c : httpClient) (s : string) (e : error)
      (post : list string) :
  submit c s = Returns (Some e) ->
  forall pre : list string,
    Forall (fun s' => submit c s' = Returns None) pre ->
    submitChains_loop c (pre ++ s :: post) = (pre ++ [s], Returns (Some e)).
Proof.
  intros Hs. induction pre as [|s' pre IH]; intros Hpre; cbn.
  - rewrite Hs. reflexivity.
  - inversion Hpre as [|? ? Hs' Hpre']; subst.
    rewrite Hs', (IH Hpre'). reflexivity.
Qed.

End DraftFacts.

(** X13. In the earlier draft, [submitChains] gives up at the first
    submission that fails: it returns the error of that submission, has
    posted the submissions up to and including it, in order, and posts
    none of those queued behind it. *)
Theorem draft_submitChains_stops_at_first_error
  (roundTrip : string -> string -> string -> result Response)
  (pre post : list string) (s : string) (e : error) :
  Forall (fun s' => Draft.submit (liveClient roundTrip) s' = Returns None) pre ->
  Draft.submit (liveClient roundTrip) s = Returns (Some e) ->
  Draft.submitChains roundTrip (pre ++ s :: post)
  = (pre ++ [s], Returns (Some e)).
Proof.
  intros Hpre Hs.
  exact (DraftFacts.loop_first_error (liveClient roundTrip) s e post Hs pre
           Hpre).
Qed.

Lemma draft_submitChains_stops_at_first_error_witness :
  Draft.submitChains MoreFixtures.picky_log
    (List.app ["one"%string; "two"%string]
              ("bad"%string :: ["three"%string]))
  = (List.app ["one"%string; "two"%string] ["bad"%string],
     Returns (Some (ErrorString "non-200 status code, body: no"))).
Proof.
  apply (draft_submitChains_stops_at_first_error MoreFixtures.picky_log
           ["one"; "two"]%string ["three"]%string "bad"%string
           (ErrorString "non-200 status code, body: no")).
  - repeat constructor.
  - reflexivity.
Defined.

(** X14. In the earlier draft, [submit] only looks at the status of the
    answer: it accepts the answer of [dryClient], which has no body, for
    every submission, and a run of the loop on that client posts every
    submission and returns no error. *)
Theorem draft_submit_accepts_dry_client (submissions : list string) :
  Forall (fun s => Draft.submit dryClient s = Returns None) submissions
  /\ Draft.submitChains_loop dryClient submissions
     = (submissions, Returns None).
Proof.
  assert (H : Forall (fun s => Draft.submit dryClient s = Returns None)
                     submissions).
  { induction submissions; constructor; [reflexivity | assumption]. }
  split; [exact H|]. exact (DraftFacts.loop_all_accepted dryClient _ H).
Qed.

(** ** More on the worker pool *)

Module CountFacts.
Import Submission WorkerPool Measures.

Lemma wrap64_shift (z k : Z) : wrap64 (z + k * 2 ^ 64) = wrap64 z.
Proof.
  unfold wrap64. replace (z + k * 2 ^ 64 + 2 ^ 63) with (z + 2 ^ 63 + k * 2 ^ 64)
    by ring.
  rewrite Z_mod_plus_full. reflexivity.
Qed.

Lemma wrap64_multiple (z : Z) : exists k, wrap64 z = z + k * 2 ^ 64.
Proof.
  exists (- ((z + 2 ^ 63) / 2 ^ 64)). unfold wrap64.
  pose proof (Z.div_mod (z + 2 ^ 63) (2 ^ 64) ltac:(lia)). lia.
Qed.

Lemma wrap64_add_wrap (a k : Z) : wrap64 (wrap64 a + k) = wrap64 (a + k).
Proof.
  destruct (wrap64_multiple a) as [m Hm]. rewrite Hm.
  replace (a + m * 2 ^ 64 + k) with (a + k + m * 2 ^ 64) by ring.
  apply wrap64_shift.
Qed.

Lemma wrap64_eq_add (a b k : Z) :
  wrap64 a = wrap64 b -> wrap64 (a + k) = wrap64 (b + k).
Proof.
  intros H. rewrite <- (wrap64_add_wrap a k), <- (wrap64_add_wrap b k), H.
  reflexivity.
Qed.

Lemma successes_app (h1 h2 : list (chain * option error)) :
  successes (h1 ++ h2) = successes h1 ++ successes h2.
Proof.
  induction h1 as [|[y [e|]] h1 IH]; cbn; [reflexivity|exact IH|].
  rewrite IH. reflexivity.
Qed.

Lemma take_job_measures (w : nat) :
  forall (b b' : list job) (x : chain) (ph : phase),
    take_job w b = Some ((x, ph), b') ->
    pending_adds b = adds_of ph + pending_adds b'
    /\ succeeding b = success_of ph + succeeding b'.
Proof.
  induction b as [|[w' [y ph']] b IH]; intros b' x ph Ht; cbn in Ht.
  - discriminate.
  - destruct (Nat.eqb w w').
    + inversion Ht; subst. destruct ph as [|ops [e|]]; cbn; split; reflexivity.
    + destruct (take_job w b) as [[[x1 ph1] b1]|] eqn:Hrec; [|discriminate].
      inversion Ht; subst.
      destruct (IH b1 x ph eq_refl) as [Hp Hs].
      destruct ph' as [|ops' [e'|]]; cbn [pending_adds succeeding];
        rewrite ?Hp, ?Hs; split; lia.
Qed.

Section Counting.

Variable U : list byte -> result Z.
Variable c : httpClient.
Variable workers : nat.
Variable d : Z.

Lemma exec_op_counted (op : atomic_op) (st : ProgressState) (k : Z) :
  in_int64 (numSubmitted st) ->
  in_int64 (numSubmitted (exec_op st op))
  /\ wrap64 (numSubmitted (exec_op st op) + k)
     = wrap64 (numSubmitted st
               + Z.of_nat (List.length (filter is_add [op])) + k).
Proof.
  intros Hr. destruct op; cbn.
  - split; [exact Hr | f_equal; lia].
  - split; [exact Hr | f_equal; lia].
  - split; [apply wrap64_range|]. rewrite wrap64_add_wrap. reflexivity.
Qed.

Lemma step_keeps_counted (ev : event) (p p' : pool) :
  counted d p ->
  step U c workers ev p = Some (Running p') ->
  counted d p'.
Proof.
  unfold counted. intros [Hr Hc] Hstep.
  destruct ev as [|w|w now|w]; cbn [step] in Hstep.
  - destruct (unsent p); [discriminate|].
    destruct (len (queue p) <? capacity); [|discriminate].
    inversion Hstep; subst; cbn. split; assumption.
  - destruct (Nat.ltb w workers && negb (is_busy w (busy p))); [|discriminate].
    destruct (queue p); [discriminate|].
    inversion Hstep; subst; cbn. split; assumption.
  - destruct (take_job w (busy p)) as [[[x ph] b]|] eqn:Ht; [|discriminate].
    destruct ph as [|ops0 err0]; [|discriminate].
    destruct (take_job_measures _ _ _ _ _ Ht) as [Hp Hs]. cbn in Hp, Hs.
    rewrite Hp, Hs in Hc.
    pose proof (PoolFacts.iteration_shapes U c x now) as Hshape.
    destruct (worker_iteration U c x now) as [ops out].
    inversion Hshape as [r|e|new]; subst.
    + discriminate.
    + inversion Hstep; subst; cbn. split; [assumption|].
      rewrite successes_app, length_app. cbn. rewrite Nat.add_0_r. exact Hc.
    + assert (Hp' : p' = mkPool (unsent p) (queue p)
                      ((w, (x, Updating
                                 ((if new then [AddNumNewSubmitted] else [])
                                    ++ [StoreLastSubmittedChain (ID x);
                                        AddNumSubmitted;
                                        StoreLastSubmittedChain (ID x)])
                                 None)) :: b)
                      (progress p) (history p)).
      { destruct new; cbn in Hstep; inversion Hstep; reflexivity. }
      subst p'. cbn [busy progress history pending_adds succeeding].
      split; [assumption|].
      replace (Z.of_nat
                 (List.length
                    (filter is_add
                       ((if new then [AddNumNewSubmitted] else [])
                          ++ [StoreLastSubmittedChain (ID x); AddNumSubmitted;
                              StoreLastSubmittedChain (ID x)]))))
        with 1 by (destruct new; reflexivity).
      replace (numSubmitted (progress p) + (1 + pending_adds b))
        with (numSubmitted (progress p) + (0 + pending_adds b) + 1) by lia.
      replace (d + Z.of_nat (List.length (successes (history p)))
               + (1 + succeeding b))
        with (d + Z.of_nat (List.length (successes (history p)))
              + (0 + succeeding b) + 1) by lia.
      apply wrap64_eq_add. exact Hc.
  - destruct (take_job w (busy p)) as [[[x ph] b]|] eqn:Ht; [|discriminate].
    destruct ph as [|[|op rest] err]; try discriminate.
    destruct (take_job_measures _ _ _ _ _ Ht) as [Hp Hs].
    cbn [adds_of success_of] in Hp, Hs. rewrite Hp, Hs in Hc.
    change (op :: rest) with ([op] ++ rest) in Hc.
    rewrite filter_app, length_app, Nat2Z.inj_add in Hc.
    destruct (exec_op_counted op (progress p)
                (Z.of_nat (List.length (filter is_add rest)) + pending_adds b)
                Hr) as [Hr' Hc'].
    set (a := Z.of_nat (List.length (filter is_add [op]))) in *.
    set (r := Z.of_nat (List.length (filter is_add rest))) in *.
    assert (Hgoal : wrap64 (numSubmitted (exec_op (progress p) op)
                            + (r + pending_adds b))
                    = wrap64 (d + Z.of_nat
                                    (List.length (successes (history p)))
                              + (success_of (Updating (op :: rest) err)
                                 + succeeding b))).
    { rewrite Hc'.
      replace (numSubmitted (progress p) + a + (r + pending_adds b))
        with (numSubmitted (progress p) + (a + r + pending_adds b)) by lia.
      exact Hc. }
    destruct rest as [|op' rest].
    + inversion Hstep; subst; cbn [busy progress history].
      split; [exact Hr'|].
      rewrite successes_app, length_app, Nat2Z.inj_add.
      subst r. cbn [filter List.length Z.of_nat] in Hgoal.
      rewrite Z.add_0_l in Hgoal. rewrite Hgoal.
      destruct err; cbn [success_of successes List.length]; f_equal; lia.
    + inversion Hstep; subst; cbn [busy progress history].
      split; [exact Hr'|].
      cbn [pending_adds succeeding]. fold r. rewrite Hgoal.
      destruct err; reflexivity.
Qed.

Lemma run_keeps_counted (evs : list event) :
  forall p p' : pool,
    counted d p ->
    run U c workers evs p = Some (Running p') ->
    counted d p'.
Proof.
  induction evs as [|ev evs IH]; intros p p' Hinv Hrun; cbn in Hrun.
  - inversion Hrun; subst. exact Hinv.
  - destruct (step U c workers ev p) as [[p1|r p1]|] eqn:Hstep;
      try discriminate.
    apply (IH p1 p'); [|exact Hrun].
    exact (step_keeps_counted ev p p1 Hinv Hstep).
Qed.

End Counting.

End CountFacts.

(** X15. Whenever no worker is in the middle of an iteration, and so
    once every chain has been processed, [numSubmitted] is its initial
    value plus the number of submissions that succeeded, in [int64]
    arithmetic, however the atomic operations of the workers
    interleaved: a failed submission is never counted and a successful
    one is counted once. *)
Theorem numSubmitted_counts_successes
  (U : list byte -> result Z) (c : httpClient) (workers : nat)
  (evs : list WorkerPool.event) (q : list chain) (st : ProgressState)
  (p : WorkerPool.pool) :
  in_int64 (numSubmitted st) ->
  WorkerPool.run U c workers evs (WorkerPool.start q st)
  = Some (WorkerPool.Running p) ->
  WorkerPool.busy p = [] ->
  numSubmitted (WorkerPool.progress p)
  = wrap64 (numSubmitted st
            + Z.of_nat (List.length
                          (WorkerPool.successes (WorkerPool.history p)))).
Proof.
  intros Hr Hrun Hidle.
  destruct (CountFacts.run_keeps_counted U c workers (numSubmitted st) evs
              (WorkerPool.start q st) p) as [Hr' Hc].
  - split; [exact Hr|]. cbn. f_equal. lia.
  - exact Hrun.
  - rewrite Hidle in Hc. cbn in Hc.
    rewrite !Z.add_0_r in Hc. rewrite <- Hc.
    symmetry. apply wrap64_small. exact Hr'.
Qed.

Lemma numSubmitted_counts_successes_witness :
  numSubmitted
    (WorkerPool.progress
       (WorkerPool.mkPool [] [] [] (mkProgress 3 2 0)
          [(Fixtures.chain5, None); (Fixtures.chain3, None)]))
  = wrap64 (numSubmitted Orchestrator.initial_progress
            + Z.of_nat (List.length
                          (WorkerPool.successes
                             [(Fixtures.chain5, None);
                              (Fixtures.chain3, None)]))).
Proof.
  apply (numSubmitted_counts_successes Fixtures.Unmarshal
           (liveClient Fixtures.accepting_log) 2 Fixtures.out_of_order
           [Fixtures.chain3; Fixtures.chain5] Orchestrator.initial_progress).
  - vm_compute. split; discriminate.
  - vm_compute. reflexivity.
  - reflexivity.
Defined.

Module TrackFacts.
Import Submission WorkerPool Measures.

(** Taking a job out of the busy list, as a permutation. *)
Lemma take_job_perm (w : nat) :
  forall (b b' : list job) (j : chain * phase),
    take_job w b = Some (j, b') ->
    Permutation b ((w, j) :: b').
Proof.
  induction b as [|[w' j'] b IH]; intros b' j Ht; cbn in Ht.
  - discriminate.
  - destruct (Nat.eqb w w') eqn:E.
    + apply Nat.eqb_eq in E. subst w'. inversion Ht; subst. reflexivity.
    + destruct (take_job w b) as [[j1 b1]|] eqn:Hrec; [|discriminate].
      inversion Ht; subst.
      rewrite (IH b1 j eq_refl). apply perm_swap.
Qed.

(** With the first job of a worker taken out in place. *)
Lemma take_job_first (w : nat) :
  forall (b b' : list job) (j : chain * phase),
    take_job w b = Some (j, b') ->
    exists b1 b2, b = b1 ++ (w, j) :: b2 /\ b' = b1 ++ b2.
Proof.
  induction b as [|[w' j'] b IH]; intros b' j Ht; cbn in Ht.
  - discriminate.
  - destruct (Nat.eqb w w') eqn:E.
    + apply Nat.eqb_eq in E. subst w'. inversion Ht; subst.
      exists [], b'. split; reflexivity.
    + destruct (take_job w b) as [[j1 b1]|] eqn:Hrec; [|discriminate].
      inversion Ht; subst.
      destruct (IH b1 j eq_refl) as [l1 [l2 [H1 H2]]]. subst.
      exists ((w', j') :: l1), l2. split; reflexivity.
Qed.

Lemma not_busy_not_in (w : nat) (b : list job) :
  is_busy w b = false -> ~ In w (map fst b).
Proof.
  unfold is_busy. induction b as [|[w' j] b IH]; cbn; intros H; [tauto|].
  apply orb_false_iff in H. destruct H as [H1 H2].
  apply Nat.eqb_neq in H1. intros [Hw|Hin]; [congruence | exact (IH H2 Hin)].
Qed.

Lemma chains_move (h : list chain) (bs bs' : list chain) (x : chain)
      (rest : list chain) :
  Permutation bs (x :: bs') ->
  Permutation (h ++ bs ++ rest) ((h ++ [x]) ++ bs' ++ rest).
Proof.
  intros H. rewrite <- app_assoc. apply Permutation_app_head.
  cbn. rewrite H. reflexivity.
Qed.

Section Tracking.

Variable U : list byte -> result Z.
Variable c : httpClient.
Variable workers : nat.

Lemma step_keeps_chains (ev : event) (p p' : pool) :
  step U c workers ev p = Some (Running p') ->
  Permutation (chains_of p) (chains_of p').
Proof.
  unfold chains_of. intros Hstep.
  destruct ev as [|w|w now|w]; cbn [step] in Hstep.
  - destruct (unsent p) as [|x rest] eqn:Hu; [discriminate|].
    destruct (len (queue p) <? capacity); [|discriminate].
    inversion Hstep; subst; cbn.
    rewrite <- (app_assoc (queue p)). reflexivity.
  - destruct (Nat.ltb w workers && negb (is_busy w (busy p))); [|discriminate].
    destruct (queue p) as [|x q] eqn:Hq; [discriminate|].
    inversion Hstep; subst; cbn.
    apply Permutation_app_head.
    change (item (w, (x, Posting)) :: map item (busy p) ++ q ++ unsent p)
      with (x :: map item (busy p) ++ q ++ unsent p).
    symmetry. apply Permutation_middle.
  - destruct (take_job w (busy p)) as [[[x ph] b]|] eqn:Ht; [|discriminate].
    destruct ph as [|ops0 err0]; [|discriminate].
    assert (Hperm : Permutation (map item (busy p)) (x :: map item b)).
    { rewrite (take_job_perm _ _ _ _ Ht). reflexivity. }
    destruct (worker_iteration U c x now) as [ops [err|r]];
      destruct ops as [|op ops]; try discriminate;
      inversion Hstep; subst; cbn [history busy queue unsent].
    + rewrite map_app. cbn [map fst]. apply chains_move. exact Hperm.
    + apply Permutation_app_head. cbn [map].
      change (item (w, (x, Updating (op :: ops) err))) with x.
      rewrite Hperm. reflexivity.
  - destruct (take_job w (busy p)) as [[[x ph] b]|] eqn:Ht; [|discriminate].
    destruct ph as [|[|op rest] err]; try discriminate.
    assert (Hperm : Permutation (map item (busy p)) (x :: map item b)).
    { rewrite (take_job_perm _ _ _ _ Ht). reflexivity. }
    destruct rest as [|op' rest]; inversion Hstep; subst;
      cbn [history busy queue unsent].
    + rewrite map_app. cbn [map fst]. apply chains_move. exact Hperm.
    + apply Permutation_app_head. cbn [map].
      change (item (w, (x, Updating (op' :: rest) err))) with x.
      rewrite Hperm. reflexivity.
Qed.

Lemma run_keeps_chains (evs : list event) :
  forall p p' : pool,
    run U c workers evs p = Some (Running p') ->
    Permutation (chains_of p) (chains_of p').
Proof.
  induction evs as [|ev evs IH]; intros p p' Hrun; cbn in Hrun.
  - inversion Hrun; subst. reflexivity.
  - destruct (step U c workers ev p) as [[p1|r p1]|] eqn:Hstep;
      try discriminate.
    rewrite (step_keeps_chains ev p p1 Hstep). exact (IH p1 p' Hrun).
Qed.

Lemma retake_bounded (w : nat) (b b' : list job) (j j' : chain * phase) :
  take_job w b = Some (j, b') ->
  NoDup (map fst b) ->
  Forall (fun k : job => (fst k < workers)%nat) b ->
  NoDup (map fst b')
  /\ Forall (fun k : job => (fst k < workers)%nat) b'
  /\ NoDup (map fst ((w, j') :: b'))
  /\ Forall (fun k : job => (fst k < workers)%nat) ((w, j') :: b').
Proof.
  intros Ht Hnd Hall.
  assert (Hp := take_job_perm _ _ _ _ Ht).
  assert (Hnd' : NoDup (w :: map fst b')).
  { apply (Permutation_NoDup (l := map fst b)); [|exact Hnd].
    rewrite Hp. reflexivity. }
  destruct (PoolFacts.take_job_Forall _ _ _ _ _ Ht Hall) as [Hw Hb'].
  inversion Hnd'; subst.
  repeat split; try assumption. constructor; assumption.
Qed.

Lemma step_keeps_bounded (ev : event) (p p' : pool) :
  bounded workers p ->
  step U c workers ev p = Some (Running p') ->
  bounded workers p'.
Proof.
  unfold bounded. intros [Hnd [Hall Hcap]] Hstep.
  destruct ev as [|w|w now|w]; cbn [step] in Hstep.
  - destruct (unsent p) as [|x rest]; [discriminate|].
    destruct (len (queue p) <? capacity) eqn:E; [|discriminate].
    inversion Hstep; subst; cbn. repeat split; try assumption.
    apply Z.ltb_lt in E. unfold len in *. rewrite length_app. cbn. lia.
  - destruct (Nat.ltb w workers) eqn:Ew; [|discriminate].
    destruct (is_busy w (busy p)) eqn:Eb; [discriminate|].
    cbn in Hstep.
    destruct (queue p) as [|x q] eqn:Hq; [discriminate|].
    inversion Hstep; subst; cbn. repeat split.
    + constructor; [apply not_busy_not_in; exact Eb | exact Hnd].
    + constructor; [apply Nat.ltb_lt; exact Ew | exact Hall].
    + unfold len in *. cbn in Hcap. lia.
  - destruct (take_job w (busy p)) as [[[x ph] b]|] eqn:Ht; [|discriminate].
    destruct ph as [|ops0 err0]; [|discriminate].
    destruct (worker_iteration U c x now) as [ops [err|r]];
      destruct ops as [|op ops]; try discriminate.
    + destruct (retake_bounded w _ _ _ (x, Posting) Ht Hnd Hall)
        as [H1 [H2 _]].
      inversion Hstep; subst; cbn. repeat split; assumption.
    + destruct (retake_bounded w _ _ _ (x, Updating (op :: ops) err)
                  Ht Hnd Hall) as [_ [_ [H3 H4]]].
      inversion Hstep; subst; cbn [busy queue]. repeat split; assumption.
  - destruct (take_job w (busy p)) as [[[x ph] b]|] eqn:Ht; [|discriminate].
    destruct ph as [|[|op rest] err]; try discriminate.
    destruct (retake_bounded w _ _ _ (x, Updating rest err) Ht Hnd Hall)
      as [H1 [H2 [H3 H4]]].
    destruct rest as [|op' rest]; inversion Hstep; subst; cbn [busy queue];
      repeat split; assumption.
Qed.

Lemma run_keeps_bounded (evs : list event) :
  forall p p' : pool,
    bounded workers p ->
    run U c workers evs p = Some (Running p') ->
    bounded workers p'.
Proof.
  induction evs as [|ev evs IH]; intros p p' Hinv Hrun; cbn in Hrun.
  - inversion Hrun; subst. exact Hinv.
  - destruct (step U c workers ev p) as [[p1|r p1]|] eqn:Hstep;
      try discriminate.
    apply (IH p1 p'); [|exact Hrun].
    exact (step_keeps_bounded ev p p1 Hinv Hstep).
Qed.

Lemma bounded_length (b : list job) :
  NoDup (map fst b) ->
  Forall (fun j : job => (fst j < workers)%nat) b ->
  (List.length b <= workers)%nat.
Proof.
  intros Hnd Hall.
  apply Nat.le_trans with (List.length (map fst b));
    [rewrite length_map; apply le_n|].
  rewrite <- (length_seq workers 0) at 1.
  apply NoDup_incl_length; [exact Hnd|].
  intros w Hw. apply in_map_iff in Hw. destruct Hw as [j [Hj Hin]]. subst w.
  apply in_seq. rewrite Forall_forall in Hall. specialize (Hall j Hin). lia.
Qed.

End Tracking.

End TrackFacts.

(** X16. The pool neither loses nor repeats a chain: at every point of
    a run the chains whose iteration ended, those held by workers, those
    queued and those still to send are, together, the chains it started
    with; so once the pool is drained every chain sent by [main] has been
    through exactly one iteration: none is retried, none is skipped. *)
Theorem pool_attempts_each_chain_once
  (U : list byte -> result Z) (c : httpClient) (workers : nat)
  (evs : list WorkerPool.event) (q : list chain) (st : ProgressState)
  (p : WorkerPool.pool) :
  WorkerPool.run U c workers evs (WorkerPool.start q st)
  = Some (WorkerPool.Running p) ->
  Permutation q (Measures.chains_of p)
  /\ (WorkerPool.drained p = true ->
      Permutation q (map fst (WorkerPool.history p))).
Proof.
  intros Hrun.
  assert (H : Permutation q (Measures.chains_of p)).
  { rewrite <- (TrackFacts.run_keeps_chains U c workers evs _ _ Hrun).
    reflexivity. }
  split; [exact H|]. intros Hd. unfold WorkerPool.drained in Hd.
  unfold Measures.chains_of in H.
  destruct (WorkerPool.unsent p); [|discriminate].
  destruct (WorkerPool.queue p); [|discriminate].
  destruct (WorkerPool.busy p); [|discriminate].
  cbn in H. rewrite app_nil_r in H. exact H.
Qed.

Lemma pool_attempts_each_chain_once_witness :
  Permutation [Fixtures.chain3; Fixtures.chain5]
    (Measures.chains_of
       (WorkerPool.mkPool [] [] [] (mkProgress 3 2 0)
          [(Fixtures.chain5, None); (Fixtures.chain3, None)]))
  /\ (WorkerPool.drained
        (WorkerPool.mkPool [] [] [] (mkProgress 3 2 0)
           [(Fixtures.chain5, None); (Fixtures.chain3, None)]) = true ->
      Permutation [Fixtures.chain3; Fixtures.chain5]
        (map fst [(Fixtures.chain5, @None error); (Fixtures.chain3, None)])).
Proof.
  apply (pool_attempts_each_chain_once Fixtures.Unmarshal
           (liveClient Fixtures.accepting_log) 2 Fixtures.out_of_order
           [Fixtures.chain3; Fixtures.chain5] Orchestrator.initial_progress).
  vm_compute. reflexivity.
Defined.

(** X17. The pool keeps its bounds: at every point of a run no more
    than [workers] submissions are in flight, each with a worker of its
    own, and the queue holds no more than the 100000 chains of the
    channel's buffer. *)
Theorem pool_keeps_bounds
  (U : list byte -> result Z) (c : httpClient) (workers : nat)
  (evs : list WorkerPool.event) (q : list chain) (st : ProgressState)
  (p : WorkerPool.pool) :
  WorkerPool.run U c workers evs (WorkerPool.start q st)
  = Some (WorkerPool.Running p) ->
  (List.length (WorkerPool.busy p) <= workers)%nat
  /\ NoDup (map fst (WorkerPool.busy p))
  /\ len (WorkerPool.queue p) <= 100000.
Proof.
  intros Hrun.
  destruct (TrackFacts.run_keeps_bounded U c workers evs
              (WorkerPool.start q st) p) as [Hnd [Hall Hcap]].
  - repeat split; [constructor | constructor | cbn; discriminate].
  - exact Hrun.
  - repeat split; [|exact Hnd|exact Hcap].
    exact (TrackFacts.bounded_length workers _ Hnd Hall).
Qed.

Lemma pool_keeps_bounds_witness :
  (List.length
     (WorkerPool.busy
        (WorkerPool.mkPool [] []
           [(1%nat, (Fixtures.chain5, WorkerPool.Posting));
            (0%nat, (Fixtures.chain3, WorkerPool.Posting))]
           Orchestrator.initial_progress [])) <= 2)%nat
  /\ NoDup
       (map fst
          (WorkerPool.busy
             (WorkerPool.mkPool [] []
                [(1%nat, (Fixtures.chain5, WorkerPool.Posting));
                 (0%nat, (Fixtures.chain3, WorkerPool.Posting))]
                Orchestrator.initial_progress [])))
  /\ len
       (WorkerPool.queue
          (WorkerPool.mkPool [] []
             [(1%nat, (Fixtures.chain5, WorkerPool.Posting));
              (0%nat, (Fixtures.chain3, WorkerPool.Posting))]
             Orchestrator.initial_progress [])) <= 100000.
Proof.
  apply (pool_keeps_bounds Fixtures.Unmarshal
           (liveClient Fixtures.accepting_log) 2
           [WorkerPool.Push; WorkerPool.Push;
            WorkerPool.Receive 0; WorkerPool.Receive 1]
           [Fixtures.chain3; Fixtures.chain5] Orchestrator.initial_progress).
  vm_compute. reflexivity.
Defined.

(** ** One worker *)

Module SequentialFacts.
Import Submission WorkerPool Measures.

Lemma ascending_weaken (l : list chain) :
  forall d d' : Z, d <= d' -> ascending d' l -> ascending d l.
Proof.
  destruct l as [|x l]; cbn; intros d d' Hd H; [exact I|].
  split; [lia | apply H].
Qed.

Lemma ascending_prefix (l1 l2 : list chain) :
  forall d : Z, ascending d (l1 ++ l2) -> ascending d l1.
Proof.
  induction l1 as [|x l1 IH]; cbn; intros d H; [exact I|].
  split; [apply H | apply IH, H].
Qed.

(** Over a history in ascending order of identifiers, the last success
    is the largest. *)
Lemma last_success_is_max (h : list (chain * option error)) :
  forall d : Z,
    ascending d (map fst h) ->
    last_success h d = max_ID (successes h) d.
Proof.
  unfold max_ID.
  induction h as [|[x [e|]] h IH]; intros d Ha; cbn in *.
  - reflexivity.
  - apply IH. apply (ascending_weaken _ d (ID x)); [apply Ha | apply Ha].
  - rewrite (Z.max_r d (ID x)) by apply Ha. apply IH, Ha.
Qed.

Section OneWorker.

Variable U : list byte -> result Z.
Variable c : httpClient.

(** With one worker, the chains keep their order through the pool. *)
Lemma step_keeps_order (ev : event) (p p' : pool) :
  Measures.bounded 1 p ->
  step U c 1 ev p = Some (Running p') ->
  chains_of p' = chains_of p.
Proof.
  intros Hb Hstep.
  assert (Hb' := TrackFacts.step_keeps_bounded U c 1 ev p p' Hb Hstep).
  assert (Hlen : (List.length (busy p) <= 1)%nat).
  { destruct Hb as [H1 [H2 _]]. exact (TrackFacts.bounded_length 1 _ H1 H2). }
  assert (Hlen' : (List.length (busy p') <= 1)%nat).
  { destruct Hb' as [H1 [H2 _]]. exact (TrackFacts.bounded_length 1 _ H1 H2). }
  clear Hb Hb'. unfold chains_of.
  destruct ev as [|w|w now|w]; cbn [step] in Hstep.
  - destruct (unsent p) as [|x rest] eqn:Hu; [discriminate|].
    destruct (len (queue p) <? capacity); [|discriminate].
    inversion Hstep; subst; cbn.
    rewrite <- (app_assoc (queue p)). reflexivity.
  - destruct (Nat.ltb w 1 && negb (is_busy w (busy p))); [|discriminate].
    destruct (queue p) as [|x q] eqn:Hq; [discriminate|].
    inversion Hstep; subst; cbn in *.
    destruct (busy p); [reflexivity | cbn in Hlen'; lia].
  - destruct (take_job w (busy p)) as [[[x ph] b]|] eqn:Ht; [|discriminate].
    destruct ph as [|ops0 err0]; [|discriminate].
    destruct (TrackFacts.take_job_first _ _ _ _ Ht) as [b1 [b2 [Hbusy Hb]]].
    rewrite Hbusy in *. rewrite length_app in Hlen. cbn in Hlen.
    destruct b1; [|cbn in Hlen; lia]. destruct b2; [|cbn in Hlen; lia].
    subst b.
    destruct (worker_iteration U c x now) as [ops [err|r]];
      destruct ops as [|op ops]; try discriminate;
      inversion Hstep; subst; cbn.
    + rewrite map_app, <- app_assoc. reflexivity.
    + reflexivity.
  - destruct (take_job w (busy p)) as [[[x ph] b]|] eqn:Ht; [|discriminate].
    destruct ph as [|[|op rest] err]; try discriminate.
    destruct (TrackFacts.take_job_first _ _ _ _ Ht) as [b1 [b2 [Hbusy Hb]]].
    rewrite Hbusy in *. rewrite length_app in Hlen. cbn in Hlen.
    destruct b1; [|cbn in Hlen; lia]. destruct b2; [|cbn in Hlen; lia].
    subst b.
    destruct rest as [|op' rest]; inversion Hstep; subst; cbn.
    + rewrite map_app, <- app_assoc. reflexivity.
    + reflexivity.
Qed.

Lemma run_keeps_order (evs : list event) :
  forall p p' : pool,
    Measures.bounded 1 p ->
    run U c 1 evs p = Some (Running p') ->
    chains_of p' = chains_of p.
Proof.
  induction evs as [|ev evs IH]; intros p p' Hb Hrun; cbn in Hrun.
  - inversion Hrun; subst. reflexivity.
  - destruct (step U c 1 ev p) as [[p1|r p1]|] eqn:Hstep; try discriminate.
    rewrite (IH p1 p' (TrackFacts.step_keeps_bounded U c 1 ev p p1 Hb Hstep)
               Hrun).
    exact (step_keeps_order ev p p1 Hb Hstep).
Qed.

End OneWorker.

End SequentialFacts.

(** X18. With a single worker the chains are submitted in the order
    they were sent; so when their identifiers never decrease along the
    queue, starting from the initial value of [lastSubmittedChain], then
    whenever the worker is between two iterations [lastSubmittedChain]
    is the largest identifier among the chains submitted with success. *)
Theorem one_worker_last_is_max
  (U : list byte -> result Z) (c : httpClient)
  (evs : list WorkerPool.event) (q : list chain) (st : ProgressState)
  (p : WorkerPool.pool) :
  WorkerPool.run U c 1 evs (WorkerPool.start q st)
  = Some (WorkerPool.Running p) ->
  WorkerPool.busy p = [] ->
  Measures.ascending (lastSubmittedChain st) q ->
  map fst (WorkerPool.history p) ++ WorkerPool.queue p ++ WorkerPool.unsent p
  = q
  /\ lastSubmittedChain (WorkerPool.progress p)
     = WorkerPool.max_ID (WorkerPool.successes (WorkerPool.history p))
                         (lastSubmittedChain st).
Proof.
  intros Hrun Hidle Hasc.
  assert (Hb : Measures.bounded 1 (WorkerPool.start q st)).
  { repeat split; [constructor | constructor | cbn; discriminate]. }
  assert (Hq := SequentialFacts.run_keeps_order U c evs _ _ Hb Hrun).
  unfold Measures.chains_of in Hq. rewrite Hidle in Hq. cbn in Hq.
  split; [exact Hq|].
  destruct (PoolFacts.run_keeps_latest U c 1 (lastSubmittedChain st) evs
              (WorkerPool.start q st) p (PoolFacts.latest_start q st) Hrun)
    as [_ [Hl|Hl]]; [|rewrite Hidle in Hl; inversion Hl].
  rewrite Hl. apply SequentialFacts.last_success_is_max.
  rewrite <- Hq in Hasc.
  exact (SequentialFacts.ascending_prefix _ _ _ Hasc).
Qed.

Lemma one_worker_last_is_max_witness :
  map fst
      (WorkerPool.history
         (WorkerPool.mkPool [] [] [] (mkProgress 5 2 0)
            [(Fixtures.chain3, None); (Fixtures.chain5, None)]))
    ++ WorkerPool.queue
         (WorkerPool.mkPool [] [] [] (mkProgress 5 2 0)
            [(Fixtures.chain3, None); (Fixtures.chain5, None)])
    ++ WorkerPool.unsent
         (WorkerPool.mkPool [] [] [] (mkProgress 5 2 0)
            [(Fixtures.chain3, None); (Fixtures.chain5, None)])
  = [Fixtures.chain3; Fixtures.chain5]
  /\ lastSubmittedChain
       (WorkerPool.progress
          (WorkerPool.mkPool [] [] [] (mkProgress 5 2 0)
             [(Fixtures.chain3, None); (Fixtures.chain5, None)]))
     = WorkerPool.max_ID
         (WorkerPool.successes
            (WorkerPool.history
               (WorkerPool.mkPool [] [] [] (mkProgress 5 2 0)
                  [(Fixtures.chain3, None); (Fixtures.chain5, None)])))
         (lastSubmittedChain Orchestrator.initial_progress).
Proof.
  apply (one_worker_last_is_max Fixtures.Unmarshal
           (liveClient Fixtures.accepting_log) MoreFixtures.sequential
           [Fixtures.chain3; Fixtures.chain5] Orchestrator.initial_progress).
  - vm_compute. reflexivity.
  - reflexivity.
  - cbn. lia.
Defined.

(** ** More on the orchestrator *)


(** X20. When [getChains] returns without error and the pool drains,
    [main] exits with status 0 after one record line, and the identifier
    it records is that of the chain whose successful submission ended
    last (0 when none succeeded); the chains that went through an
    iteration are those the assembly loop sent, each once. *)
Theorem main_records_last_completed
  (U : list byte -> result Z)
  (roundTrip : string -> string -> string -> result Response)
  (fuel : nat) (db : DbMap) (dryRun : bool) (initOffset : Z)
  (workers : nat) (schedule : list WorkerPool.event)
  (evs : list ChainSource.event) (p : WorkerPool.pool) :
  ChainSource.getChains fuel db initOffset
  = (evs, ChainSource.Returned None) ->
  WorkerPool.run U (if dryRun then dryClient else liveClient roundTrip)
    workers schedule
    (WorkerPool.start (Orchestrator.assemble db (ChainSource.batches evs))
                      Orchestrator.initial_progress)
  = Some (WorkerPool.Running p) ->
  WorkerPool.drained p = true ->
  Orchestrator.main U roundTrip fuel (Ok db) dryRun initOffset workers schedule
  = Some (Orchestrator.mkTermination
            [Orchestrator.LastSubmittedLine
               (WorkerPool.last_success (WorkerPool.history p) 0)] 0)
  /\ Permutation (Orchestrator.assemble db (ChainSource.batches evs))
                 (map fst (WorkerPool.history p)).
Proof.
  intros Hsrc Hrun Hdr.
  rewrite (OrchestratorFacts.main_completes U roundTrip fuel db dryRun
             initOffset workers schedule evs p Hsrc Hrun Hdr).
  assert (Hidle : WorkerPool.busy p = []).
  { unfold WorkerPool.drained in Hdr.
    destruct (WorkerPool.unsent p); [|discriminate].
    destruct (WorkerPool.queue p); [|discriminate].
    destruct (WorkerPool.busy p); [reflexivity | discriminate]. }
  split.
  - destruct (PoolFacts.run_keeps_latest U _ workers 0 schedule _ p
                (PoolFacts.latest_start _ Orchestrator.initial_progress) Hrun)
      as [_ [Hl|Hl]]; [|rewrite Hidle in Hl; inversion Hl].
    rewrite Hl. reflexivity.
  - assert (H := TrackFacts.run_keeps_chains U _ workers schedule _ _ Hrun).
    unfold Measures.chains_of in H. unfold WorkerPool.drained in Hdr.
    destruct (WorkerPool.unsent p); [|discriminate].
    destruct (WorkerPool.queue p); [|discriminate].
    destruct (WorkerPool.busy p); [|discriminate].
    cbn in H. rewrite app_nil_r in H. exact H.
Qed.

Lemma main_records_last_completed_witness :
  Orchestrator.main Fixtures.Unmarshal Fixtures.accepting_log 5
    (Ok Fixtures.db3) false 0 1 Fixtures.one_worker
  = Some (Orchestrator.mkTermination
            [Orchestrator.LastSubmittedLine
               (WorkerPool.last_success
                  (WorkerPool.history
                     (WorkerPool.mkPool [] [] [] (mkProgress 2 1 0)
                        [(Fixtures.assembledB, None)])) 0)] 0)
  /\ Permutation
       (Orchestrator.assemble Fixtures.db3
          (ChainSource.batches
             [ChainSource.Query 0;
              ChainSource.Send
                [Fixtures.chainA; Fixtures.chainB; Fixtures.chainC]]))
       (map fst
            (WorkerPool.history
               (WorkerPool.mkPool [] [] [] (mkProgress 2 1 0)
                  [(Fixtures.assembledB, None)]))).
Proof.
  apply (main_records_last_completed Fixtures.Unmarshal Fixtures.accepting_log
           5 Fixtures.db3 false 0 1 Fixtures.one_worker
           [ChainSource.Query 0;
            ChainSource.Send
              [Fixtures.chainA; Fixtures.chainB; Fixtures.chainC]]).
  - vm_compute. reflexivity.
  - vm_compute. reflexivity.
  - reflexivity.
Defined.

(** X21. The store of the identifier that a worker performs after a
    successful [submit] repeats the one [submit] has made: taken alone, an
    iteration leaves the counters as [submit] left them. After a failed
    [submit] the worker does nothing more. *)
Theorem worker_store_repeats_submit
  (U : list byte -> result Z) (c : httpClient) (x : chain) (now : Z)
  (st : ProgressState) :
  match Submission.submit U c x now with
  | (ops, Returns None) =>
      Submission.worker_iteration U c x now
      = (ops ++ [StoreLastSubmittedChain (ID x)], Returns None)
      /\ exec_ops (ops ++ [StoreLastSubmittedChain (ID x)]) st
         = exec_ops ops st
  | (ops, out) => Submission.worker_iteration U c x now = (ops, out)
  end.
Proof.
  pose proof (PoolFacts.iteration_shapes U c x now) as Hs.
  unfold Submission.worker_iteration in *.
  destruct (Submission.submit U c x now) as [ops [[e|]|r]]; try reflexivity.
  split; [reflexivity|].
  inversion Hs as [| |new Hops]; subst.
  change [StoreLastSubmittedChain (ID x); AddNumSubmitted;
          StoreLastSubmittedChain (ID x)]
    with ([StoreLastSubmittedChain (ID x); AddNumSubmitted]
            ++ [StoreLastSubmittedChain (ID x)]) in Hops.
  rewrite app_assoc in Hops. apply app_inj_tail in Hops.
  destruct Hops as [Hops _]. rewrite <- Hops.
  destruct new; reflexivity.
Qed.
